(** * Score networks of scoresbibm/methods/neural_nets.py

    A shallow embedding of the three model factories [conditional_mlp],
    [scalar_transformer_model] and [structured_transformer_model], of the
    Haiku function transformation they rely on, and of the array operations
    their bodies apply, followed by the properties of the specification.

    Arrays are a shape together with a row-major buffer, as a jax array is.
    The element type is kept abstract (class [Scalar]): the code computes in
    floating point, the development only uses the operations, and where a
    property needs [0 * x = 0] or [x + 0 = x] it asks it of the values
    concerned; the models are run over the integers and over Rocq's binary64
    floating-point numbers.  The learned
    and numeric collaborators that live outside the file (the tokenizer, the
    Fourier time embedding, the transformer, the statistics of layer
    normalisation, the random initialisers) are the fields of class
    [Externals]. *)

From Stdlib Require Import ZArith Lia.
From Corelib Require PrimFloat.
From stdpp Require Import base tactics option list gmap strings pretty.

(** ** Scalars *)

Class Scalar : Type := {
  scalar : Type;
  szero : scalar;
  sone : scalar;
  sadd : scalar -> scalar -> scalar;
  smul : scalar -> scalar -> scalar }.

(** What the conditioning properties ask of single values.  Neither holds
    of every floating-point number: zero times an infinity or a NaN is a
    NaN, and a negative zero plus zero is zero. *)
Definition absorbed {SC : Scalar} (x : scalar) : Prop := smul szero x = szero.

(** ** Exceptions and results *)

(** Every failure below is a Python exception derived from [Exception]:
    the tuple unpacking of a shape, a reshape or a broadcast that does not
    fit, a parameter that is missing or has another shape, and whatever a
    collaborator raises. *)
Inductive exn : Type :=
| UnpackError (shp : list nat)
| ReshapeError (shp target : list nat)
| BroadcastError (shp1 shp2 : list nat)
| ConcatenateError (shp1 shp2 : list nat)
| MissingParameter (module_name param_name : string)
| ParameterShapeError (module_name param_name : string) (found wanted : list nat)
| ScalarInputError
| ExternalError (code : nat).

Inductive result (A : Type) : Type :=
| Ok (a : A)
| Raise (e : exn).
Arguments Ok {A} a.
Arguments Raise {A} e.

Definition result_bind {A B} (r : result A) (k : A -> result B) : result B :=
  match r with
  | Ok a => k a
  | Raise e => Raise e
  end.

Definition result_map {A B} (f : A -> B) (r : result A) : result B :=
  match r with
  | Ok a => Ok (f a)
  | Raise e => Raise e
  end.

#[export] Instance result_ret : MRet result := fun _ a => Ok a.
#[export] Instance result_mbind : MBind result := fun _ _ k r => result_bind r k.
#[export] Instance result_fmap : FMap result := fun _ _ f r => result_map f r.

(** ** Arrays *)

Section Arrays.
Context {SC : Scalar}.

Record tensor : Type := Tensor { shape : list nat; data : list scalar }.

(** [math.prod] of a shape: the number of elements. *)
Definition size_of (shp : list nat) : nat := foldr Nat.mul 1 shp.

Definition well_formed (a : tensor) : Prop :=
  length (data a) = size_of (shape a).

(** [a.reshape(-1, d1, ..., dk)]: the first dimension is inferred; the
    call raises when the given dimensions do not divide the size (or
    multiply to zero, where the inferred one is undetermined). *)
Definition reshape_infer (a : tensor) (rest : list nat) : result tensor :=
  let p := size_of rest in
  let n := size_of (shape a) in
  if (p =? 0)%nat then Raise (ReshapeError (shape a) rest)
  else if (n mod p =? 0)%nat
       then Ok (Tensor (n / p :: rest) (data a))
       else Raise (ReshapeError (shape a) rest).

(** [a[..., None]]: a trailing axis of length one. *)
Definition expand_last (a : tensor) : tensor :=
  Tensor (shape a ++ [1]) (data a).

(** [shp[:-1]] and [shp[-1]]. *)
Fixpoint split_last (shp : list nat) : option (list nat * nat) :=
  match shp with
  | [] => None
  | [d] => Some ([], d)
  | d :: rest =>
      match split_last rest with
      | Some (lead, l) => Some (d :: lead, l)
      | None => None
      end
  end.

Definition drop_last (shp : list nat) : list nat :=
  match split_last shp with
  | Some (lead, _) => lead
  | None => []
  end.

(** The buffer cut in [count] consecutive rows of [n] elements. *)
Fixpoint chunks (n count : nat) (l : list scalar) : list (list scalar) :=
  match count with
  | 0 => []
  | S c => take n l :: chunks n c (drop n l)
  end.

(** [jnp.concatenate([a, b], axis=-1)]: same rank, same leading
    dimensions; the rows of [a] and [b] are joined pairwise. *)
Definition concatenate_last (a b : tensor) : result tensor :=
  match split_last (shape a), split_last (shape b) with
  | Some (la, wa), Some (lb, wb) =>
      if decide (la = lb)
      then
        let rows := size_of la in
        Ok (Tensor (la ++ [wa + wb])
              (concat (zip_with app (chunks wa rows (data a))
                                    (chunks wb rows (data b)))))
      else Raise (ConcatenateError (shape a) (shape b))
  | _, _ => Raise (ConcatenateError (shape a) (shape b))
  end.

(** *** Broadcasting *)

Definition broadcast_dim (a b : nat) : option nat :=
  if (a =? b)%nat then Some a
  else if (a =? 1)%nat then Some b
  else if (b =? 1)%nat then Some a
  else None.

Fixpoint broadcast_aligned (s1 s2 : list nat) : option (list nat) :=
  match s1, s2 with
  | [], [] => Some []
  | a :: s1', b :: s2' =>
      match broadcast_dim a b, broadcast_aligned s1' s2' with
      | Some d, Some ds => Some (d :: ds)
      | _, _ => None
      end
  | _, _ => None
  end.

(** Shapes are aligned on the right: the shorter one gets leading ones. *)
Definition pad_left (n : nat) (shp : list nat) : list nat :=
  replicate (n - length shp) 1 ++ shp.

Definition broadcast_shapes (s1 s2 : list nat) : option (list nat) :=
  let n := length s1 `max` length s2 in
  broadcast_aligned (pad_left n s1) (pad_left n s2).

(** The buffer of an array of shape [src] seen at shape [dst] (of the
    same rank): an axis of length one is repeated, any other is kept. *)
Fixpoint expand (src dst : list nat) (d : list scalar) : list scalar :=
  match src, dst with
  | a :: src', b :: dst' =>
      if (a =? b)%nat
      then concat (map (expand src' dst') (chunks (size_of src') a d))
      else concat (replicate b (expand src' dst' d))
  | _, _ => d
  end.

Definition broadcast_data (a : tensor) (dst : list nat) : list scalar :=
  expand (pad_left (length dst) (shape a)) dst (data a).

(** [jnp.broadcast_to(a, dst)]. *)
Definition broadcast_to (a : tensor) (dst : list nat) : result tensor :=
  if decide (broadcast_shapes (shape a) dst = Some dst)
  then Ok (Tensor dst (broadcast_data a dst))
  else Raise (BroadcastError (shape a) dst).

(** An elementwise binary operator with broadcasting ([a + b], [a * b]). *)
Definition binop (f : scalar -> scalar -> scalar) (a b : tensor)
  : result tensor :=
  match broadcast_shapes (shape a) (shape b) with
  | Some shp =>
      Ok (Tensor shp (zip_with f (broadcast_data a shp) (broadcast_data b shp)))
  | None => Raise (BroadcastError (shape a) (shape b))
  end.

Definition tensor_add : tensor -> tensor -> result tensor := binop sadd.
Definition tensor_mul : tensor -> tensor -> result tensor := binop smul.

Definition zeros (shp : list nat) : tensor :=
  Tensor shp (replicate (size_of shp) szero).
Definition ones (shp : list nat) : tensor :=
  Tensor shp (replicate (size_of shp) sone).

End Arrays.

(** ** Collaborators outside the file *)

Section Collaborators.
Context {SC : Scalar}.

(** The keyword arguments handed to [Transformer]. *)
Record transformer_args : Type := TransformerArgs {
  tr_num_heads : nat;
  tr_num_layers : nat;
  tr_attn_size : nat;
  tr_widening_factor : nat;
  tr_num_hidden_layers : nat;
  tr_act : tensor -> tensor;
  tr_skip_connection_attn : bool;
  tr_skip_connection_mlp : bool }.

(** A Haiku module as the transformation sees it: the parameters it
    creates when first called (at a key and an input), and its value from
    its own parameters and the input.  A module reads no other state. *)
Class Externals : Type := {
  rng_key : Type;
  fold_in : rng_key -> string -> rng_key;
  (** [hk.initializers.RandomNormal(stddev, mean)] *)
  RandomNormal : scalar -> scalar -> rng_key -> list nat -> tensor;
  (** the default weight initialiser of [hk.Linear], from the fan-in *)
  TruncatedNormal : nat -> rng_key -> list nat -> tensor;
  (** the statistics of [hk.LayerNorm(axis=-1)]: centre and rescale rows *)
  normalize_last : tensor -> tensor;
  (** [GaussianFourierEmbedding(dim)(t)] *)
  fourier_init : nat -> rng_key -> tensor -> result (gmap string tensor);
  fourier_call : nat -> gmap string tensor -> tensor -> result tensor;
  (** [ScalarTokenizer(dim, max_size)(ids, value, meta_data)] *)
  tokenizer_init : nat -> nat -> rng_key ->
                   tensor * tensor * option tensor -> result (gmap string tensor);
  tokenizer_call : nat -> nat -> gmap string tensor ->
                   tensor * tensor * option tensor -> result tensor;
  (** [Transformer(...)(tokens, context=time, mask=edge_mask)] *)
  transformer_init : transformer_args -> rng_key ->
                     tensor * tensor * option tensor -> result (gmap string tensor);
  transformer_call : transformer_args -> gmap string tensor ->
                     tensor * tensor * option tensor -> result tensor }.

End Collaborators.

(** ** Diagnostics written by [print] *)

Inductive diag : Type :=
| ModelCalled (data_shape data_id_shape condition_mask_shape : list nat)
| TokenizerCalled (data_id_shape data_shape : list nat)
| TokensShapeBeforeReshaping (shp : list nat)
| ReshapedTokensShape (shp : list nat)
| ErrorReshapingTokens (e : exn)
| InitialShapes (data_shape data_id_shape condition_mask_shape : list nat)
                (meta_data_shape : option (list nat))
| ReshapedIds (data_id_shape condition_mask_shape : list nat)
| TokensShape (shp : list nat)
| TimeEmbeddingShape (shp : list nat)
| ConditionedTokensShape (shp : list nat)
| TransformerOutputShape (shp : list nat)
| FinalOutputShape (shp : list nat).

(** ** The Haiku transformation *)

Section Haiku.
Context {SC : Scalar} {EX : Externals}.

(** [hk.transform] runs the function twice over: to create the parameters
    ([init]) and to read them ([apply]). *)
Inductive hk_mode : Type :=
| InitMode (key : rng_key)
| ApplyMode.

(** The parameters (module name, then parameter name), the number of
    modules created so far under each class name, and standard output. *)
Record hk_state : Type := HkState {
  hk_params : gmap string (gmap string tensor);
  hk_names : gmap string nat;
  stdout : list diag }.

Definition Hk (A : Type) : Type := hk_mode -> hk_state -> hk_state * result A.

Definition hk_ret {A} (a : A) : Hk A := fun _ st => (st, Ok a).

Definition hk_bind {A B} (c : Hk A) (k : A -> Hk B) : Hk B :=
  fun mode st =>
    match c mode st with
    | (st', Ok a) => k a mode st'
    | (st', Raise e) => (st', Raise e)
    end.

#[export] Instance Hk_ret : MRet Hk := @hk_ret.
#[export] Instance Hk_mbind : MBind Hk := fun _ _ k c => hk_bind c k.

Definition lift {A} (r : result A) : Hk A := fun _ st => (st, r).

Definition print (d : diag) : Hk unit :=
  fun _ st => (HkState (hk_params st) (hk_names st) (stdout st ++ [d]), Ok tt).

(** [try: body / except Exception as e: handler(e)]: the handler runs in
    the state the body left, and what it returns is the statement's
    outcome; nothing is raised again. *)
Definition try_except {A} (body : Hk A) (handler : exn -> Hk A) : Hk A :=
  fun mode st =>
    match body mode st with
    | (st', Ok a) => (st', Ok a)
    | (st', Raise e) => handler e mode st'
    end.

(** [_, n, _ = shp]. *)
Definition unpack3 (shp : list nat) : result (nat * nat * nat) :=
  match shp with
  | [a; b; c] => Ok (a, b, c)
  | _ => Raise (UnpackError shp)
  end.

(** Parameters of the transformed function itself live under ["~"]. *)
Definition top_level : string := "~".

(** [hk.get_parameter(name, shape, init=init)] at the top level. *)
Definition get_parameter (name : string) (shp : list nat)
    (init : rng_key -> list nat -> tensor) : Hk tensor :=
  fun mode st =>
    match hk_params st !! top_level ≫= (fun m => m !! name) with
    | Some v =>
        if decide (shape v = shp) then (st, Ok v)
        else (st, Raise (ParameterShapeError top_level name (shape v) shp))
    | None =>
        match mode with
        | ApplyMode => (st, Raise (MissingParameter top_level name))
        | InitMode key =>
            let v := init (fold_in key (top_level +:+ "/" +:+ name)) shp in
            let own := default ∅ (hk_params st !! top_level) in
            (HkState (<[top_level := <[name := v]> own]> (hk_params st))
                     (hk_names st) (stdout st), Ok v)
        end
    end.

Record hk_module (I : Type) : Type := HkModule {
  class_name : string;
  module_init : rng_key -> I -> result (gmap string tensor);
  module_call : gmap string tensor -> I -> result tensor }.
Arguments class_name {I} _.
Arguments module_init {I} _ _ _.
Arguments module_call {I} _ _ _.

(** Constructing a module names it: the class name, then [name_1],
    [name_2], ... for the next instances. *)
Definition new_module {I} (m : hk_module I) : Hk string :=
  fun _ st =>
    let n := default 0 (hk_names st !! class_name m) in
    let name := if (n =? 0)%nat then class_name m
                else class_name m +:+ "_" +:+ pretty n in
    (HkState (hk_params st) (<[class_name m := S n]> (hk_names st)) (stdout st),
     Ok name).

(** Calling a module: [init] creates its parameters on the first call,
    [apply] reads them. *)
Definition call_module {I} (m : hk_module I) (name : string) (i : I) : Hk tensor :=
  fun mode st =>
    match mode, hk_params st !! name with
    | InitMode key, None =>
        match module_init m (fold_in key name) i with
        | Ok p =>
            (HkState (<[name := p]> (hk_params st)) (hk_names st) (stdout st),
             module_call m p i)
        | Raise e => (st, Raise e)
        end
    | _, found => (st, module_call m (default ∅ found) i)
    end.

(** [Class(...)(input)]: construct and call at once. *)
Definition call_new {I} (m : hk_module I) (i : I) : Hk tensor :=
  name ← new_module m; call_module m name i.

(** *** [hk.transform] and [hk.without_apply_rng] *)

Definition init_fn (I : Type) : Type :=
  rng_key -> I -> list diag -> list diag * result (gmap string (gmap string tensor)).
Definition apply_rng_fn (I : Type) : Type :=
  gmap string (gmap string tensor) -> option rng_key -> I ->
  list diag -> list diag * result tensor.
Definition apply_fn (I : Type) : Type :=
  gmap string (gmap string tensor) -> I -> list diag -> list diag * result tensor.

Definition transform {I} (f : I -> Hk tensor) : init_fn I * apply_rng_fn I :=
  (fun rng args out =>
     let '(st, r) := f args (InitMode rng) (HkState ∅ ∅ out) in
     (stdout st, (fun _ => hk_params st) <$> r),
   fun params _ args out =>
     let '(st, r) := f args ApplyMode (HkState params ∅ out) in
     (stdout st, r)).

Definition without_apply_rng {I} (f : init_fn I * apply_rng_fn I)
  : init_fn I * apply_fn I :=
  (fst f, fun params args => snd f params None args).

(** *** [hk.Linear] and [hk.LayerNorm] *)

Definition lookup_param (module_name name : string) (shp : list nat)
    (p : gmap string tensor) : result tensor :=
  match p !! name with
  | Some v =>
      if decide (shape v = shp) then Ok v
      else Raise (ParameterShapeError module_name name (shape v) shp)
  | None => Raise (MissingParameter module_name name)
  end.

Definition dot (u v : list scalar) : scalar :=
  foldr sadd szero (zip_with smul u v).

Definition column (w : list scalar) (in_dim out_dim j : nat) : list scalar :=
  map (fun i => nth (i * out_dim + j) w szero) (seq 0 in_dim).

(** One row of [x @ w + b]. *)
Definition affine_row (in_dim out_dim : nat) (w b row : list scalar)
  : list scalar :=
  map (fun j => sadd (dot row (column w in_dim out_dim j)) (nth j b szero))
      (seq 0 out_dim).

Definition linear_call (out_dim : nat) (p : gmap string tensor) (x : tensor)
  : result tensor :=
  match split_last (shape x) with
  | None => Raise ScalarInputError
  | Some (lead, in_dim) =>
      w ← lookup_param "linear" "w" [in_dim; out_dim] p;
      b ← lookup_param "linear" "b" [out_dim] p;
      Ok (Tensor (lead ++ [out_dim])
            (concat (map (affine_row in_dim out_dim (data w) (data b))
                         (chunks in_dim (size_of lead) (data x)))))
  end.

Definition linear_init (out_dim : nat) (key : rng_key) (x : tensor)
  : result (gmap string tensor) :=
  match split_last (shape x) with
  | None => Raise ScalarInputError
  | Some (_, in_dim) =>
      Ok (<["w" := TruncatedNormal in_dim (fold_in key "w") [in_dim; out_dim]]>
          (<["b" := zeros [out_dim]]> ∅))
  end.

Definition Linear (out_dim : nat) : hk_module tensor :=
  HkModule tensor "linear" (linear_init out_dim) (linear_call out_dim).

(** [hk.LayerNorm(axis=-1, create_scale=True, create_offset=True)]. *)
Definition layer_norm_call (p : gmap string tensor) (x : tensor)
  : result tensor :=
  match split_last (shape x) with
  | None => Raise ScalarInputError
  | Some (_, width) =>
      scale ← lookup_param "layer_norm" "scale" [width] p;
      offset ← lookup_param "layer_norm" "offset" [width] p;
      y ← tensor_mul (normalize_last x) scale;
      tensor_add y offset
  end.

Definition layer_norm_init (key : rng_key) (x : tensor)
  : result (gmap string tensor) :=
  match split_last (shape x) with
  | None => Raise ScalarInputError
  | Some (_, width) =>
      Ok (<["scale" := ones [width]]> (<["offset" := zeros [width]]> ∅))
  end.

Definition LayerNorm : hk_module tensor :=
  HkModule tensor "layer_norm" layer_norm_init layer_norm_call.

(** The collaborators as modules, named after their classes. *)
Definition GaussianFourierEmbedding (dim : nat) : hk_module tensor :=
  HkModule tensor "gaussian_fourier_embedding" (fourier_init dim) (fourier_call dim).

Definition ScalarTokenizer (dim max_size : nat)
  : hk_module (tensor * tensor * option tensor) :=
  HkModule _ "scalar_tokenizer" (tokenizer_init dim max_size)
           (tokenizer_call dim max_size).

Definition Transformer (args : transformer_args)
  : hk_module (tensor * tensor * option tensor) :=
  HkModule _ "transformer" (transformer_init args) (transformer_call args).

End Haiku.

Arguments class_name {SC EX I} _.
Arguments module_init {SC EX I} _ _ _.
Arguments module_call {SC EX I} _ _ _.

(** ** The models *)

(** A keyword argument with a default: left out, or passed. *)
Inductive kwarg (A : Type) : Type :=
| Omitted
| Passed (a : A).
Arguments Omitted {A}.
Arguments Passed {A} a.

Definition kwarg_default {A} (d : A) (k : kwarg A) : A :=
  match k with
  | Omitted => d
  | Passed a => a
  end.

Section Models.
Context {SC : Scalar} {EX : Externals}.

(** [if output_scale_fn is None: output_scale_fn = lambda t, x: x]. *)
Definition scale_or_identity (f : option (tensor -> tensor -> tensor))
  : tensor -> tensor -> tensor :=
  match f with
  | Some g => g
  | None => fun t x => x
  end.

(** *** conditional_mlp *)

Record mlp_args : Type := MlpArgs {
  output_dim : nat;
  hidden_dim : nat;
  num_hidden : nat;
  activation : tensor -> tensor;
  layer_norm : bool;
  output_scale_fn : option (tensor -> tensor -> tensor) }.

(** The body of [for _ in range(num_hidden - 1)] (lines 33-39), [n] times;
    [range] of a negative number is empty, as the truncated subtraction
    of [nat] is zero. *)
Fixpoint hidden_loop (a : mlp_args) (n : nat) (time_embedding h : tensor)
  : Hk tensor :=
  match n with
  | 0 => mret h
  | S n' =>
      h_new ← call_new (Linear (hidden_dim a)) h;
      h_new ← lift (tensor_add h_new time_embedding);
      let h := activation a h_new in
      h ← (if layer_norm a then call_new LayerNorm h else mret h);
      hidden_loop a n' time_embedding h
  end.

(** [score_net] (lines 27-43). *)
Definition score_net (a : mlp_args) (args : tensor * tensor * tensor)
  : Hk tensor :=
  let '(t, x, context) := args in
  let output_scale_fn := scale_or_identity (output_scale_fn a) in
  x ← lift (concatenate_last x context);
  time_embedding ← call_new (GaussianFourierEmbedding (hidden_dim a)) (expand_last t);
  l ← call_new (Linear (hidden_dim a)) x;
  s ← lift (tensor_add l time_embedding);
  let h := activation a s in
  h ← hidden_loop a (num_hidden a - 1) time_embedding h;
  out ← call_new (Linear (output_dim a)) h;
  let out := output_scale_fn t out in
  mret out.

(** The factory (lines 45-46).  A Python function that ends without
    [return] gives [None]; the factories' value is [Some] of the pair they
    return. *)
Definition conditional_mlp (a : mlp_args)
  : option (init_fn (tensor * tensor * tensor) * apply_fn (tensor * tensor * tensor)) :=
  let '(init_fn, apply_fn) := without_apply_rng (transform (score_net a)) in
  Some (init_fn, apply_fn).

(** *** The transformer models *)

Record transformer_model_args : Type := TransformerModelArgs {
  num_nodes : nat;
  token_dim : nat;
  condition_token_dim : nat;
  condition_token_init_scale : scalar;
  condition_token_init_mean : scalar;
  condition_mode : string;
  time_embedding_dim : nat;
  num_heads : nat;
  num_layers : nat;
  attn_size : nat;
  widening_factor : nat;
  num_hidden_layers : nat;
  act : tensor -> tensor;
  skip_connection_attn : bool;
  skip_connection_mlp : bool;
  tm_layer_norm : bool;
  tm_output_scale_fn : option (tensor -> tensor -> tensor);
  base_mask : option tensor }.

(** [(t, data, data_id, condition_mask, meta_data=None, edge_mask=base_mask)]. *)
Record model_input : Type := ModelInput {
  in_t : tensor;
  in_data : tensor;
  in_data_id : tensor;
  in_condition_mask : tensor;
  in_meta_data : kwarg (option tensor);
  in_edge_mask : kwarg (option tensor) }.

(** The [if condition_mode == ...] chain of the factories (lines 73-80 and
    179-186): the token width and the condition-token width the model is
    built with. *)
Definition token_dims (a : transformer_model_args) : nat * nat :=
  if String.eqb (condition_mode a) "concat"
  then (token_dim a, condition_token_dim a)
  else if String.eqb (condition_mode a) "add"
  then (token_dim a + condition_token_dim a, token_dim a + condition_token_dim a)
  else if String.eqb (condition_mode a) "none"
  then (token_dim a + condition_token_dim a, 0)
  else (token_dim a, condition_token_dim a).

(** The [# Conditioning] block (lines 107-123 and 207-223), shared word for
    word by both models. *)
Definition conditioning (a : transformer_model_args) (current_nodes : nat)
    (condition_mask tokens : tensor) : Hk tensor :=
  let '(token_dim, condition_token_dim) := token_dims a in
  if negb (String.eqb (condition_mode a) "none")
  then
    condition_token ← get_parameter "condition_token" [1; 1; condition_token_dim]
      (RandomNormal (condition_token_init_scale a) (condition_token_init_mean a));
    condition_mask ← lift (reshape_infer condition_mask [current_nodes; 1]);
    condition_token ← lift (tensor_mul condition_mask condition_token);
    if String.eqb (condition_mode a) "add"
    then lift (tensor_add tokens condition_token)
    else if String.eqb (condition_mode a) "concat"
    then
      condition_token ← lift (broadcast_to condition_token
                                (drop_last (shape tokens) ++ [condition_token_dim]));
      lift (concatenate_last tokens condition_token)
    else mret tokens
  else mret tokens.

Definition transformer_of (a : transformer_model_args) : transformer_args :=
  TransformerArgs (num_heads a) (num_layers a) (attn_size a) (widening_factor a)
    (num_hidden_layers a) (act a) (skip_connection_attn a) (skip_connection_mlp a).

(** The [# Forward pass] block (lines 127-145 and 227-243). *)
Definition forward_pass (a : transformer_model_args) (t tokens time : tensor)
    (edge_mask : option tensor) : Hk tensor :=
  let output_scale_fn := scale_or_identity (tm_output_scale_fn a) in
  model ← new_module (Transformer (transformer_of a));
  h ← call_module (Transformer (transformer_of a)) model (tokens, time, edge_mask);
  print (TransformerOutputShape (shape h));;
  out ← call_new (Linear 1) h;
  let out := output_scale_fn t out in
  print (FinalOutputShape (shape out));;
  mret out.

(** The [try] statement of [scalar_transformer_model]'s [model] (lines
    97-101): the reshape and the print of its shape, under a handler that
    prints. *)
Definition guarded_reshape (tokens : tensor) (current_nodes token_dim : nat)
  : Hk unit :=
  try_except
    (reshaped_tokens ← lift (reshape_infer tokens [current_nodes; token_dim]);
     print (ReshapedTokensShape (shape reshaped_tokens)))
    (fun e => print (ErrorReshapingTokens e)).

(** The tokens handed to the transformer by [scalar_transformer_model]'s
    [model], with the time embedding: everything before [# Forward pass]
    (lines 83-124). *)
Definition scalar_tokens (a : transformer_model_args) (i : model_input)
  : Hk (tensor * tensor) :=
  let '(token_dim, condition_token_dim) := token_dims a in
  let t := in_t i in
  let data := in_data i in
  let data_id := in_data_id i in
  let condition_mask := in_condition_mask i in
  let meta_data := kwarg_default None (in_meta_data i) in
  print (ModelCalled (shape data) (shape data_id) (shape condition_mask));;
  '(_, current_nodes, _) ← lift (unpack3 (shape data));
  data_id ← lift (reshape_infer data_id [current_nodes]);
  condition_mask ← lift (reshape_infer condition_mask [current_nodes]);
  tokenizer ← new_module (ScalarTokenizer token_dim (num_nodes a));
  time_embeder ← new_module (GaussianFourierEmbedding (time_embedding_dim a));
  print (TokenizerCalled (shape data_id) (shape data));;
  tokens ← call_module (ScalarTokenizer token_dim (num_nodes a)) tokenizer
             (data_id, data, meta_data);
  print (TokensShapeBeforeReshaping (shape tokens));;
  guarded_reshape tokens current_nodes token_dim;;
  time ← call_module (GaussianFourierEmbedding (time_embedding_dim a)) time_embeder
           (expand_last t);
  print (TimeEmbeddingShape (shape time));;
  tokens ← conditioning a current_nodes condition_mask tokens;
  print (ConditionedTokensShape (shape tokens));;
  mret (tokens, time).

(** [model] (lines 82-145). *)
Definition scalar_model (a : transformer_model_args) (i : model_input)
  : Hk tensor :=
  '(tokens, time) ← scalar_tokens a i;
  forward_pass a (in_t i) tokens time (kwarg_default (base_mask a) (in_edge_mask i)).

(** The factory (lines 147-148). *)
Definition scalar_transformer_model (a : transformer_model_args)
  : option (init_fn model_input * apply_fn model_input) :=
  let '(init_fn, model_fn) := without_apply_rng (transform (scalar_model a)) in
  Some (init_fn, model_fn).

(** [structured_transformer_model] takes four more arguments, none of
    which its body reads. *)
Record structured_extra_args : Type := StructuredExtraArgs {
  data_name_to_id : gmap string nat;
  value_embeding_builder : option (tensor -> tensor);
  node_embeding_builder : option (tensor -> tensor);
  node_meta_data_embeding_builder : option (tensor -> tensor) }.

(** Everything before [# Forward pass] in the [model] of
    [structured_transformer_model] (lines 189-224). *)
Definition structured_tokens (a : transformer_model_args) (i : model_input)
  : Hk (tensor * tensor) :=
  let '(token_dim, condition_token_dim) := token_dims a in
  let t := in_t i in
  let data := in_data i in
  let data_id := in_data_id i in
  let condition_mask := in_condition_mask i in
  let meta_data := kwarg_default None (in_meta_data i) in
  '(_, current_nodes, _) ← lift (unpack3 (shape data));
  print (InitialShapes (shape data) (shape data_id) (shape condition_mask)
           (shape <$> meta_data));;
  data_id ← lift (reshape_infer data_id [current_nodes]);
  condition_mask ← lift (reshape_infer condition_mask [current_nodes]);
  print (ReshapedIds (shape data_id) (shape condition_mask));;
  tokenizer ← new_module (ScalarTokenizer token_dim (num_nodes a));
  time_embeder ← new_module (GaussianFourierEmbedding (time_embedding_dim a));
  tokens ← call_module (ScalarTokenizer token_dim (num_nodes a)) tokenizer
             (data_id, data, meta_data);
  print (TokensShape (shape tokens));;
  time ← call_module (GaussianFourierEmbedding (time_embedding_dim a)) time_embeder
           (expand_last t);
  print (TimeEmbeddingShape (shape time));;
  tokens ← conditioning a current_nodes condition_mask tokens;
  print (ConditionedTokensShape (shape tokens));;
  mret (tokens, time).

(** [model] (lines 188-243). *)
Definition structured_model (a : transformer_model_args) (i : model_input)
  : Hk tensor :=
  '(tokens, time) ← structured_tokens a i;
  forward_pass a (in_t i) tokens time (kwarg_default (base_mask a) (in_edge_mask i)).

(** The function defines [model] and ends there (line 243 is the last of
    the file): no transformation, no [return]. *)
Definition structured_transformer_model (a : transformer_model_args)
    (e : structured_extra_args)
  : option (init_fn model_input * apply_fn model_input) :=
  let model := structured_model a in
  None.

(** What [hk.without_apply_rng(hk.transform(model))] would give for the
    [model] of [structured_transformer_model], as a caller of the inner
    function obtains it. *)
Definition structured_model_fns (a : transformer_model_args)
  : init_fn model_input * apply_fn model_input :=
  without_apply_rng (transform (structured_model a)).

End Models.

(** ** What the collaborators are assumed to return *)

(** The tokenizer gives each entry of [ids] a token of the width it was
    built with, in a well-formed array; the transformer keeps the shape of
    its tokens. *)
Class Contracts {SC : Scalar} (EX : Externals) : Prop := {
  tokenizer_tokens : forall dim max_size p ids value meta tokens,
    tokenizer_call dim max_size p (ids, value, meta) = Ok tokens ->
    shape tokens = shape ids ++ [dim] /\ well_formed tokens;
  transformer_tokens : forall args p tokens time mask h,
    transformer_call args p (tokens, time, mask) = Ok h ->
    shape h = shape tokens }.

(** ** Definitions the properties are stated with *)

Section Statements.
Context {SC : Scalar} {EX : Externals}.

(** The functions the factories return. *)
Definition mlp_fns (a : mlp_args) :=
  without_apply_rng (transform (score_net a)).
Definition scalar_fns (a : transformer_model_args) :=
  without_apply_rng (transform (scalar_model a)).

Definition mlp_apply (a : mlp_args) : apply_fn (tensor * tensor * tensor) :=
  snd (mlp_fns a).
Definition scalar_apply (a : transformer_model_args) : apply_fn model_input :=
  snd (scalar_fns a).
Definition structured_apply (a : transformer_model_args) : apply_fn model_input :=
  snd (structured_model_fns a).

(** Arguments and inputs with one field replaced. *)
Definition with_condition_mask (mask : tensor) (i : model_input) : model_input :=
  ModelInput (in_t i) (in_data i) (in_data_id i) mask (in_meta_data i) (in_edge_mask i).

Definition with_condition_mode (m : string) (a : transformer_model_args)
  : transformer_model_args :=
  TransformerModelArgs (num_nodes a) (token_dim a) (condition_token_dim a)
    (condition_token_init_scale a) (condition_token_init_mean a) m
    (time_embedding_dim a) (num_heads a) (num_layers a) (attn_size a)
    (widening_factor a) (num_hidden_layers a) (act a) (skip_connection_attn a)
    (skip_connection_mlp a) (tm_layer_norm a) (tm_output_scale_fn a) (base_mask a).

Definition with_output_scale (f : option (tensor -> tensor -> tensor))
    (a : transformer_model_args) : transformer_model_args :=
  TransformerModelArgs (num_nodes a) (token_dim a) (condition_token_dim a)
    (condition_token_init_scale a) (condition_token_init_mean a) (condition_mode a)
    (time_embedding_dim a) (num_heads a) (num_layers a) (attn_size a)
    (widening_factor a) (num_hidden_layers a) (act a) (skip_connection_attn a)
    (skip_connection_mlp a) (tm_layer_norm a) f (base_mask a).

Definition mlp_with_output_scale (f : option (tensor -> tensor -> tensor))
    (a : mlp_args) : mlp_args :=
  MlpArgs (output_dim a) (hidden_dim a) (num_hidden a) (activation a)
          (layer_norm a) f.

(** The width of the tokens the transformer receives. *)
Definition entering_width (a : transformer_model_args) : nat :=
  if String.eqb (condition_mode a) "concat"
  then fst (token_dims a) + snd (token_dims a)
  else fst (token_dims a).

(** *** Runs that only standard output can tell apart *)

(** From any parameters and module names, the run appends a fixed list of
    diagnostics to standard output and does nothing else that depends on
    it. *)
Definition stdout_only {A} (c : Hk A) : Prop :=
  forall mode p n, exists p' n' d r,
    forall w, c mode (HkState p n w) = (HkState p' n' (w ++ d), r).

(** Calling twice in a row gives the same value and the same diagnostics. *)
Definition rerun_identical {I} (apply : apply_fn I) : Prop :=
  forall params i w, exists d r,
    apply params i w = (w ++ d, r) /\ apply params i (w ++ d) = ((w ++ d) ++ d, r).

(** *** What a run returns *)

Definition ensures {A} (mode : hk_mode) (c : Hk A) (Q : A -> Prop) : Prop :=
  forall st st' a, c mode st = (st', Ok a) -> Q a.

(** *** Two runs side by side *)

Definition cond_token (st : hk_state) : option tensor :=
  hk_params st !! top_level ≫= (fun m => m !! "condition_token").

(** Two states that a run cannot tell apart, but for the condition token,
    which is related by [T]. *)
Definition agree (T : option tensor -> option tensor -> Prop)
    (st1 st2 : hk_state) : Prop :=
  hk_names st1 = hk_names st2 /\ stdout st1 = stdout st2 /\
  (forall name, name <> top_level -> hk_params st1 !! name = hk_params st2 !! name) /\
  T (cond_token st1) (cond_token st2).

Definition same_outcome {A B} (R : hk_state -> hk_state -> Prop)
    (Q : A -> B -> Prop) (o1 : hk_state * result A) (o2 : hk_state * result B)
  : Prop :=
  match o1, o2 with
  | (s1, Ok a), (s2, Ok b) => R s1 s2 /\ Q a b
  | (s1, Raise e1), (s2, Raise e2) => R s1 s2 /\ e1 = e2
  | _, _ => False
  end.

Definition same_result {A B} (Q : A -> B -> Prop) (r1 : result A) (r2 : result B)
  : Prop :=
  match r1, r2 with
  | Ok a, Ok b => Q a b
  | Raise e1, Raise e2 => e1 = e2
  | _, _ => False
  end.

(** In [apply] mode, from states that agree, the two runs end alike. *)
Definition simulates {A B} (T : option tensor -> option tensor -> Prop)
    (c1 : Hk A) (c2 : Hk B) (Q : A -> B -> Prop) : Prop :=
  forall st1 st2, agree T st1 st2 ->
    same_outcome (agree T) Q (c1 ApplyMode st1) (c2 ApplyMode st2).






(** Parameter sets that differ at most under the top level, where the
    condition token lives. *)
Definition same_modules (p1 p2 : gmap string (gmap string tensor)) : Prop :=
  forall name, name <> top_level -> p1 !! name = p2 !! name.

Definition condition_token_of (p : gmap string (gmap string tensor)) : option tensor :=
  p !! top_level ≫= (fun m => m !! "condition_token").


End Statements.

(** ** Definitions the code is compared with *)

Section Comparisons.
Context {SC : Scalar} {EX : Externals}.

(** [scalar_transformer_model]'s [model] with the [try] statement taken
    out. *)
Definition scalar_tokens_unguarded (a : transformer_model_args) (i : model_input)
  : Hk (tensor * tensor) :=
  let '(token_dim, condition_token_dim) := token_dims a in
  let t := in_t i in
  let data := in_data i in
  let data_id := in_data_id i in
  let condition_mask := in_condition_mask i in
  let meta_data := kwarg_default None (in_meta_data i) in
  print (ModelCalled (shape data) (shape data_id) (shape condition_mask));;
  '(_, current_nodes, _) ← lift (unpack3 (shape data));
  data_id ← lift (reshape_infer data_id [current_nodes]);
  condition_mask ← lift (reshape_infer condition_mask [current_nodes]);
  tokenizer ← new_module (ScalarTokenizer token_dim (num_nodes a));
  time_embeder ← new_module (GaussianFourierEmbedding (time_embedding_dim a));
  print (TokenizerCalled (shape data_id) (shape data));;
  tokens ← call_module (ScalarTokenizer token_dim (num_nodes a)) tokenizer
             (data_id, data, meta_data);
  print (TokensShapeBeforeReshaping (shape tokens));;
  time ← call_module (GaussianFourierEmbedding (time_embedding_dim a)) time_embeder
           (expand_last t);
  print (TimeEmbeddingShape (shape time));;
  tokens ← conditioning a current_nodes condition_mask tokens;
  print (ConditionedTokensShape (shape tokens));;
  mret (tokens, time).

Definition scalar_model_unguarded (a : transformer_model_args) (i : model_input)
  : Hk tensor :=
  '(tokens, time) ← scalar_tokens_unguarded a i;
  forward_pass a (in_t i) tokens time (kwarg_default (base_mask a) (in_edge_mask i)).

Definition scalar_apply_unguarded (a : transformer_model_args) : apply_fn model_input :=
  snd (without_apply_rng (transform (scalar_model_unguarded a))).

(** The two diagnostics of the [try] statement. *)
Definition reshape_diag (d : diag) : bool :=
  match d with
  | ReshapedTokensShape _ | ErrorReshapingTokens _ => true
  | _ => false
  end.

Definition other_diags (w : list diag) : list diag :=
  List.filter (fun d => negb (reshape_diag d)) w.

(** Two outcomes that differ at most by diagnostics of the [try]. *)
Definition same_but_reshape_diags {A} (o1 o2 : hk_state * result A) : Prop :=
  snd o1 = snd o2 /\ hk_params (fst o1) = hk_params (fst o2) /\
  hk_names (fst o1) = hk_names (fst o2) /\
  other_diags (stdout (fst o1)) = other_diags (stdout (fst o2)).

(** The sentence "if the reshape raises, the exception still propagates to
    the caller after the diagnostic is printed", at one call. *)
Definition reshape_failure_propagates (a : transformer_model_args)
    (p : gmap string (gmap string tensor)) (i : model_input) (w : list diag) : Prop :=
  forall e, In (ErrorReshapingTokens e) (fst (scalar_apply a p i w)) ->
            snd (scalar_apply a p i w) = Raise e.

(** A stack of dense layers, one per entry of [norms]: the time embedding
    is added before the activation, layer normalisation follows it where
    the entry is set. *)
Fixpoint dense_stack (a : mlp_args) (norms : list bool) (time_embedding h : tensor)
  : Hk tensor :=
  match norms with
  | [] => mret h
  | norm :: rest =>
      z ← call_new (Linear (hidden_dim a)) h;
      z ← lift (tensor_add z time_embedding);
      let h := activation a z in
      h ← (if norm then call_new LayerNorm h else mret h);
      dense_stack a rest time_embedding h
  end.

Definition score_net_layers (a : mlp_args) (norms : list bool)
    (args : tensor * tensor * tensor) : Hk tensor :=
  let '(t, x, context) := args in
  x ← lift (concatenate_last x context);
  time_embedding ← call_new (GaussianFourierEmbedding (hidden_dim a)) (expand_last t);
  h ← dense_stack a norms time_embedding x;
  out ← call_new (Linear (output_dim a)) h;
  mret (scale_or_identity (output_scale_fn a) t out).

(** The network as the specification words it: [num_hidden] hidden layers,
    each followed by the optional normalisation. *)
Definition score_net_spec (a : mlp_args) : tensor * tensor * tensor -> Hk tensor :=
  score_net_layers a (replicate (num_hidden a) (layer_norm a)).

Definition mlp_apply_spec (a : mlp_args) : apply_fn (tensor * tensor * tensor) :=
  snd (without_apply_rng (transform (score_net_spec a))).

Definition mlp_matches_description (a : mlp_args) : Prop :=
  forall p args w, mlp_apply a p args w = mlp_apply_spec a p args w.

(** The part of [score_net] before the final projection. *)
Definition score_net_hidden (a : mlp_args) (args : tensor * tensor * tensor)
  : Hk tensor :=
  let '(t, x, context) := args in
  x ← lift (concatenate_last x context);
  time_embedding ← call_new (GaussianFourierEmbedding (hidden_dim a)) (expand_last t);
  l ← call_new (Linear (hidden_dim a)) x;
  s ← lift (tensor_add l time_embedding);
  hidden_loop a (num_hidden a - 1) time_embedding (activation a s).

(** The part of the transformer models before the final projection. *)
Definition transformer_output (a : transformer_model_args)
    (tokens_of : transformer_model_args -> model_input -> Hk (tensor * tensor))
    (i : model_input) : Hk tensor :=
  '(tokens, time) ← tokens_of a i;
  model ← new_module (Transformer (transformer_of a));
  h ← call_module (Transformer (transformer_of a)) model
        (tokens, time, kwarg_default (base_mask a) (in_edge_mask i));
  print (TransformerOutputShape (shape h));;
  mret h.

(** The final linear projection of each model, before any scaling. *)
Definition mlp_projection (a : mlp_args) (args : tensor * tensor * tensor)
  : Hk tensor :=
  h ← score_net_hidden a args;
  call_new (Linear (output_dim a)) h.

Definition transformer_projection (a : transformer_model_args)
    (tokens_of : transformer_model_args -> model_input -> Hk (tensor * tensor))
    (i : model_input) : Hk tensor :=
  h ← transformer_output a tokens_of i;
  call_new (Linear 1) h.



(** The final projection of the transformer models, with the scaling [f]
    applied to it. *)
Definition final_projection (f : option (tensor -> tensor -> tensor))
    (t h : tensor) : Hk tensor :=
  out ← call_new (Linear 1) h;
  let out := scale_or_identity f t out in
  print (FinalOutputShape (shape out));;
  mret out.

End Comparisons.

(** ** A small instance to run the models on *)

Definition Z_scalar : Scalar := Build_Scalar Z 0%Z 1%Z Z.add Z.mul.

Section Toy.
#[local] Existing Instance Z_scalar.

Definition toy_fourier (dim : nat) (p : gmap string tensor) (t : tensor)
  : result tensor :=
  Ok (Tensor (drop_last (shape t) ++ [dim]) (concat (map (replicate dim) (data t)))).

Definition toy_token (dim : nat) (id v : Z) : list Z :=
  map (fun j => (id + v * Z.of_nat (S j))%Z) (seq 0 dim).

(** One token per identifier and value; identifiers and values that do not
    pair up are refused. *)
Definition toy_tokenizer (dim max_size : nat) (p : gmap string tensor)
    (i : tensor * tensor * option tensor) : result tensor :=
  let '(ids, value, _) := i in
  if decide (length (data ids) = size_of (shape ids) /\
             length (data value) = length (data ids))
  then Ok (Tensor (shape ids ++ [dim])
             (concat (zip_with (toy_token dim) (data ids) (data value))))
  else Raise (ExternalError 0).

(** A tokenizer that hands the values back, whatever width is asked. *)
Definition flat_tokenizer (dim max_size : nat) (p : gmap string tensor)
    (i : tensor * tensor * option tensor) : result tensor :=
  let '(_, value, _) := i in Ok value.

Definition toy_transformer (a : transformer_args) (p : gmap string tensor)
    (i : tensor * tensor * option tensor) : result tensor :=
  let '(tokens, _, _) := i in
  Ok (Tensor (shape tokens) (map (Z.mul 2) (data tokens))).

Definition counting (shp : list nat) : tensor :=
  Tensor shp (map Z.of_nat (seq 1 (size_of shp))).

Definition toy_with (tokenizer : nat -> nat -> gmap string tensor ->
    tensor * tensor * option tensor -> result tensor) : Externals :=
  {| rng_key := nat;
     fold_in := fun k s => k + String.length s;
     RandomNormal := fun stddev mean k shp => counting shp;
     TruncatedNormal := fun fan k shp => counting shp;
     normalize_last :=
       fun t => Tensor (shape t) (map (fun x => (x - hd 0 (data t))%Z) (data t));
     fourier_init := fun _ _ _ => Ok ∅;
     fourier_call := toy_fourier;
     tokenizer_init := fun _ _ _ _ => Ok ∅;
     tokenizer_call := tokenizer;
     transformer_init := fun _ _ _ => Ok ∅;
     transformer_call := toy_transformer |}.

Definition toy : Externals := toy_with toy_tokenizer.
Definition toy_flat : Externals := toy_with flat_tokenizer.

Definition toy_args (mode : string) : @transformer_model_args Z_scalar :=
  TransformerModelArgs 2 2 1 1%Z 0%Z mode 3 8 6 5 4 1 (fun x => x) true true true
    None None.

Definition toy_input (mask : tensor) : model_input :=
  ModelInput (Tensor [1] [7%Z]) (Tensor [1; 2; 1] [10%Z; 20%Z])
             (Tensor [1; 2] [0%Z; 1%Z]) mask Omitted Omitted.

Definition toy_mask : tensor := Tensor [1; 2] [1%Z; 0%Z].

(** Parameters for the toy models: the condition token and the final
    projection, for tokens of width [width] entering the transformer. *)
Definition toy_params (token : tensor) (width : nat)
  : gmap string (gmap string tensor) :=
  <[top_level := <["condition_token" := token]> ∅]>
  (<["linear" := <["w" := counting [width; 1]]>
                  (<["b" := Tensor [1] [4%Z]]> ∅)]> ∅).

Definition toy_zero_mask : tensor := zeros [1; 2].

Definition toy_data : tensor := Tensor [1; 2; 1] [10%Z; 20%Z].

Definition toy_mlp : mlp_args := MlpArgs 1 2 2 (fun x => x) true None.

Definition toy_mlp_input : tensor * tensor * tensor :=
  (Tensor [1] [7%Z], Tensor [1; 2] [1%Z; 2%Z], Tensor [1; 1] [3%Z]).

(** Parameters for every layer either network reads: those the [init] of
    the network of the specification creates for [toy_mlp]. *)
Definition toy_mlp_params : gmap string (gmap string tensor) :=
  match snd (fst (without_apply_rng (transform (score_net_spec (EX := toy) toy_mlp)))
               0 toy_mlp_input []) with
  | Ok p => p
  | Raise _ => ∅
  end.

End Toy.

(** ** The same models over floating-point numbers

    Rocq's primitive binary64 numbers, with the operations of IEEE 754:
    zero times an infinity is a NaN, and a NaN stays one. *)

Definition float_scalar : Scalar :=
  Build_Scalar PrimFloat.float PrimFloat.zero PrimFloat.one PrimFloat.add PrimFloat.mul.

Section FloatToy.
Import PrimFloat.
#[local] Existing Instance float_scalar.

Definition float_fourier (dim : nat) (p : gmap string tensor) (t : tensor)
  : result tensor :=
  Ok (Tensor (drop_last (shape t) ++ [dim]) (concat (map (replicate dim) (data t)))).

(** Each value repeated over the width of its token; values that do not
    pair up with the identifiers are refused. *)
Definition float_tokenizer (dim max_size : nat) (p : gmap string tensor)
    (i : tensor * tensor * option tensor) : result tensor :=
  let '(ids, value, _) := i in
  if decide (length (data value) = size_of (shape ids))
  then Ok (Tensor (shape ids ++ [dim]) (concat (map (replicate dim) (data value))))
  else Raise (ExternalError 0).

Definition float_transformer (a : transformer_args) (p : gmap string tensor)
    (i : tensor * tensor * option tensor) : result tensor :=
  let '(tokens, _, _) := i in
  Ok (Tensor (shape tokens) (map (fun x => (x + x)%float) (data tokens))).

Definition float_toy : Externals :=
  {| rng_key := nat;
     fold_in := fun k s => k + String.length s;
     RandomNormal := fun stddev mean k shp => ones shp;
     TruncatedNormal := fun fan k shp => ones shp;
     normalize_last := fun t => t;
     fourier_init := fun _ _ _ => Ok ∅;
     fourier_call := float_fourier;
     tokenizer_init := fun _ _ _ _ => Ok ∅;
     tokenizer_call := float_tokenizer;
     transformer_init := fun _ _ _ => Ok ∅;
     transformer_call := float_transformer |}.

Definition float_args (mode : string) : @transformer_model_args float_scalar :=
  TransformerModelArgs 2 2 1 1%float 0%float mode 3 8 6 5 4 1 (fun x => x)
    true true true None None.

Definition float_zero_mask : tensor := zeros [1; 2].

Definition float_input : model_input :=
  ModelInput (Tensor [1] [7%float]) (Tensor [1; 2; 1] [10%float; 20%float])
             (Tensor [1; 2] [0%float; 1%float]) float_zero_mask Omitted Omitted.

Definition finite_token : tensor := Tensor [1; 1; 3] [1%float; 2%float; 3%float].
Definition infinite_token : tensor := Tensor [1; 1; 3] [1%float; infinity; 3%float].

(** Parameters for mode [add]: the condition token and the final
    projection, for tokens of width three. *)
Definition float_params (token : tensor) : gmap string (gmap string tensor) :=
  <[top_level := <["condition_token" := token]> ∅]>
  (<["linear" := <["w" := ones [3; 1]]> (<["b" := Tensor [1] [4%float]]> ∅)]> ∅).

(** The entries of a score that are NaN. *)
Definition nan_entries (r : result tensor) : list bool :=
  match r with
  | Ok x => map is_nan (data x)
  | Raise _ => []
  end.

End FloatToy.

(** ** Judgements on runs *)

Section Judgements.
Context {SC : Scalar} {EX : Externals}.

(** *** Runs that differ in what they print *)

Definition same_but_stdout {A} (o1 o2 : hk_state * result A) : Prop :=
  snd o1 = snd o2 /\ hk_params (fst o1) = hk_params (fst o2) /\
  hk_names (fst o1) = hk_names (fst o2).

(** Two computations that, from the same parameters and module names, end
    with the same value or exception, parameters and names, whatever was
    and is printed. *)
Definition alike {A} (c1 c2 : Hk A) : Prop :=
  forall mode p n w1 w2,
    same_but_stdout (c1 mode (HkState p n w1)) (c2 mode (HkState p n w2)).

(** *** From [init] to [apply] *)

Definition top_param (p : gmap string (gmap string tensor)) (name : string)
  : option tensor :=
  p !! top_level ≫= (fun m => m !! name).

(** Every module and every top-level parameter of [p] is in [q] unchanged. *)
Definition params_within (p q : gmap string (gmap string tensor)) : Prop :=
  (forall name d, name <> top_level -> p !! name = Some d -> q !! name = Some d) /\
  (forall name v, top_param p name = Some v -> top_param q name = Some v).

(** In [init] mode the computation only adds parameters. *)
Definition grows {A} (c : Hk A) : Prop :=
  forall key st st' r, c (InitMode key) st = (st', r) ->
    params_within (hk_params st) (hk_params st').

(** A run in [init] mode that returns can be replayed in [apply] mode on
    any parameters that hold those of its final state. *)
Definition replays {A} (c : Hk A) : Prop :=
  forall key si si' a q,
    c (InitMode key) si = (si', Ok a) ->
    params_within (hk_params si') q ->
    c ApplyMode (HkState q (hk_names si) (stdout si)) =
    (HkState q (hk_names si') (stdout si'), Ok a).

Definition replayable {A} (c : Hk A) : Prop := grows c /\ replays c.

(** [hk.initializers.RandomNormal] gives an array of the shape asked. *)
Definition initializer_shapes : Prop :=
  forall stddev mean key shp, shape (RandomNormal stddev mean key shp) = shp.

(** *** Pre- and postconditions on the state *)

(** From a state in [P], the run ends in [Q] when it returns and in [R]
    when it raises. *)
Definition triple {A} (mode : hk_mode) (P : hk_state -> Prop) (c : Hk A)
    (Q : A -> hk_state -> Prop) (R : hk_state -> Prop) : Prop :=
  forall st, P st ->
    match c mode st with
    | (st', Ok a) => Q a st'
    | (st', Raise _) => R st'
    end.

(** In [apply] mode the parameters are only read. *)
Definition reads_params {A} (c : Hk A) : Prop :=
  forall st, hk_params (fst (c ApplyMode st)) = hk_params st.

Definition on_params (J : gmap string (gmap string tensor) -> Prop)
  : hk_state -> Prop := fun st => J (hk_params st).

Definition no_token (p : gmap string (gmap string tensor)) : Prop :=
  condition_token_of p = None.

(** The computation leaves the top-level parameters as they are. *)
Definition keeps_top {A} (c : Hk A) : Prop :=
  forall mode st, hk_params (fst (c mode st)) !! top_level = hk_params st !! top_level.

Definition on_top (F : option (gmap string tensor) -> Prop) : hk_state -> Prop :=
  fun st => F (hk_params st !! top_level).

Definition token_of_width (width : nat) (top : option (gmap string tensor)) : Prop :=
  exists v, top ≫= (fun m => m !! "condition_token") = Some v /\
            shape v = [1; 1; width].

(** What [init] leaves at the top level: nothing in mode [none], the
    condition token otherwise. *)
Definition initialised_token (a : transformer_model_args)
    (p : gmap string (gmap string tensor)) : Prop :=
  if decide (condition_mode a = "none") then p !! top_level = None
  else exists v, condition_token_of p = Some v /\
                 shape v = [1; 1; snd (token_dims a)].

(** A [condition_mode] that is none of the three the code compares with. *)
Definition unrecognised_mode (a : transformer_model_args) : Prop :=
  condition_mode a <> "concat" /\ condition_mode a <> "add" /\
  condition_mode a <> "none".

(** *** What the handler of the [try] statement prints *)

Definition reshape_error (d : diag) : bool :=
  match d with
  | ErrorReshapingTokens _ => true
  | _ => false
  end.

(** The handler of the guarded reshape has printed nothing. *)
Definition no_reshape_error (w : list diag) : Prop :=
  Forall (fun d => reshape_error d = false) w.

(** From a standard output without the handler's diagnostic the run leaves
    one without it, whether it returns or raises; what it returns is in
    [F]. *)
Definition clean_run {A} (mode : hk_mode) (c : Hk A) (F : A -> Prop) : Prop :=
  forall st, no_reshape_error (stdout st) ->
    no_reshape_error (stdout (fst (c mode st))) /\
    (forall a, snd (c mode st) = Ok a -> F a).

(** The computation prints nothing. *)
Definition silent {A} (c : Hk A) : Prop :=
  forall mode st, stdout (fst (c mode st)) = stdout st.

(** *** The MLP *)

Definition keeps_shape (f : tensor -> tensor) : Prop :=
  forall x, shape (f x) = shape x.

(** What the MLP assumes of its collaborators: the embedding turns the
    trailing axis of length one into one of length [dim], the statistics of
    layer normalisation keep the shape. *)
Definition mlp_contracts : Prop :=
  (forall dim p t e, fourier_call dim p t = Ok e ->
     shape e = drop_last (shape t) ++ [dim]) /\
  keeps_shape normalize_last.

(** [conditional_mlp] called with another [num_hidden] and [layer_norm]. *)
Definition mlp_with_depth (n : nat) (norm : bool) (a : mlp_args) : mlp_args :=
  MlpArgs (output_dim a) (hidden_dim a) n (activation a) norm (output_scale_fn a).

End Judgements.

(** ** What a call returned *)

Definition returns {A} (r : result A) : bool :=
  match r with
  | Ok _ => true
  | Raise _ => false
  end.

Definition returned {A} (d : A) (r : result A) : A :=
  match r with
  | Ok a => a
  | Raise _ => d
  end.

(** ** More inputs for the small instance *)

Section ToyInputs.
#[local] Existing Instance Z_scalar.

Definition toy_input_of (data data_id mask : tensor) : model_input :=
  ModelInput (Tensor [1] [7%Z]) data data_id mask Omitted Omitted.

(** Data without the trailing axis. *)
Definition toy_flat_data : tensor := Tensor [1; 2] [10%Z; 20%Z].

(** Three identifiers, and a mask of three entries, for two nodes. *)
Definition toy_three_ids : tensor := Tensor [1; 3] [0%Z; 1%Z; 2%Z].
Definition toy_three_mask : tensor := Tensor [1; 3] [1%Z; 0%Z; 1%Z].
Definition toy_ids : tensor := Tensor [1; 2] [0%Z; 1%Z].

(** What [init] prints and returns on the small input, and the parameters
    it creates. *)
Definition toy_init (mode : string)
  : list diag * result (gmap string (gmap string tensor)) :=
  fst (scalar_fns (EX := toy) (toy_args mode)) 0 (toy_input toy_mask) [].

Definition toy_init_params (mode : string) : gmap string (gmap string tensor) :=
  returned ∅ (snd (toy_init mode)).

(** The tokens of the small instance under a [condition_mode] the code
    does not know. *)
Definition toy_film_run : hk_state * result (tensor * tensor) :=
  scalar_tokens (EX := toy) (toy_args "film") (toy_input toy_mask) ApplyMode
    (HkState (toy_params (counting [1; 1; 1]) 2) ∅ []).

Definition toy_film_tokens : tensor := Tensor [1; 2; 2] [10%Z; 20%Z; 21%Z; 41%Z].
Definition toy_film_time : tensor := Tensor [1; 3] [7%Z; 7%Z; 7%Z].

Definition toy_mlp_init : list diag * result (gmap string (gmap string tensor)) :=
  fst (mlp_fns (EX := toy) toy_mlp) 0 toy_mlp_input [].

Definition toy_mlp_init_params : gmap string (gmap string tensor) :=
  returned ∅ (snd toy_mlp_init).

End ToyInputs.

(** * Properties *)

(** ** Facts about arrays *)

Section ArrayFacts.
Context {SC : Scalar}.
Implicit Types d : list scalar.

Lemma size_of_cons a s : size_of (a :: s) = a * size_of s.
Proof. reflexivity. Qed.





Lemma concat_length_rows (ls : list (list scalar)) n :
  Forall (fun c => length c = n) ls -> length (concat ls) = length ls * n.
Proof.
  induction 1 as [|c ls Hc _ IH]; simpl; [done|].
  rewrite length_app, IH, Hc. done.
Qed.




(** *** Shapes *)

Lemma reshape_infer_ok (a b : tensor) rest :
  reshape_infer a rest = Ok b ->
  shape b = size_of (shape a) / size_of rest :: rest /\ data b = data a
  /\ size_of rest <> 0.
Proof.
  unfold reshape_infer.
  destruct (size_of rest =? 0)%nat eqn:E0; [done|].
  destruct (_ mod _ =? 0)%nat; [|done].
  intros [= <-]. apply Nat.eqb_neq in E0. done.
Qed.

Lemma reshape_row (x y : tensor) B N :
  shape x = [B; N] -> reshape_infer x [N] = Ok y ->
  shape y = [B; N] /\ data y = data x /\ N <> 0.
Proof.
  intros Hx Hy. apply reshape_infer_ok in Hy as (Hs & Hd & Hne).
  rewrite Hx in Hs. simpl in Hs, Hne.
  repeat split; [|done|lia]. rewrite Hs. f_equal. apply Nat.div_mul. lia.
Qed.


Lemma reshape_infer_same_shape (x y : tensor) rest :
  shape x = shape y ->
  same_result (fun u v => shape u = shape v)
    (reshape_infer x rest) (reshape_infer y rest).
Proof.
  intros H. unfold reshape_infer. rewrite H.
  destruct (_ =? 0)%nat; [done|]. by destruct (_ =? 0)%nat.
Qed.

Lemma broadcast_dim_same a : broadcast_dim a a = Some a.
Proof. unfold broadcast_dim. by rewrite Nat.eqb_refl. Qed.

Lemma broadcast_dim_one_r a : broadcast_dim a 1 = Some a.
Proof. unfold broadcast_dim. by destruct (a =? 1)%nat eqn:E. Qed.

Lemma broadcast_dim_one_l a : broadcast_dim 1 a = Some a.
Proof.
  unfold broadcast_dim. destruct (1 =? a)%nat eqn:E; [|done].
  apply Nat.eqb_eq in E. by subst.
Qed.

Lemma broadcast_aligned_same s : broadcast_aligned s s = Some s.
Proof. induction s as [|a s IH]; simpl; [done|]. by rewrite broadcast_dim_same, IH. Qed.

Lemma pad_left_same s : pad_left (length s) s = s.
Proof. unfold pad_left. by rewrite Nat.sub_diag. Qed.

Lemma broadcast_shapes_same s : broadcast_shapes s s = Some s.
Proof.
  unfold broadcast_shapes. rewrite Nat.max_id, pad_left_same.
  apply broadcast_aligned_same.
Qed.

Lemma broadcast_shapes_mask_token B N C :
  broadcast_shapes [B; N; 1] [1; 1; C] = Some [B; N; C].
Proof.
  unfold broadcast_shapes. simpl.
  by rewrite !broadcast_dim_one_r, broadcast_dim_one_l.
Qed.

Lemma binop_ok f (a b c : tensor) :
  binop f a b = Ok c ->
  broadcast_shapes (shape a) (shape b) = Some (shape c).
Proof.
  unfold binop. destruct (broadcast_shapes _ _) as [s|]; [|done].
  by intros [= <-].
Qed.

Lemma split_last_app lead w : split_last (lead ++ [w]) = Some (lead, w).
Proof.
  induction lead as [|d lead IH]; [done|].
  simpl. rewrite IH. by destruct lead.
Qed.

Lemma drop_last_app lead w : drop_last (lead ++ [w]) = lead.
Proof. unfold drop_last. by rewrite split_last_app. Qed.

Lemma concatenate_last_ok (a b c : tensor) lead wa wb :
  shape a = lead ++ [wa] -> shape b = lead ++ [wb] ->
  concatenate_last a b = Ok c -> shape c = lead ++ [wa + wb].
Proof.
  intros Ha Hb. unfold concatenate_last.
  rewrite Ha, Hb, !split_last_app. rewrite decide_True by done.
  by intros [= <-].
Qed.

Lemma broadcast_to_ok (a b : tensor) dst :
  broadcast_to a dst = Ok b -> shape b = dst.
Proof. unfold broadcast_to. case_decide; [|done]. by intros [= <-]. Qed.

End ArrayFacts.

(** *** Arrays of zeros *)

Section ZeroFacts.
Context {SC : Scalar}.







End ZeroFacts.

(** ** Runs of the transformed functions *)

Section Runs.
Context {SC : Scalar} {EX : Externals}.

Lemma bind_run {A B} (c : Hk A) (k : A -> Hk B) mode st :
  (c ≫= k) mode st =
  match c mode st with
  | (st', Ok a) => k a mode st'
  | (st', Raise e) => (st', Raise e)
  end.
Proof. reflexivity. Qed.

Lemma bind_assoc_run {A B C} (c : Hk A) (k : A -> Hk B) (k' : B -> Hk C) mode st :
  ((c ≫= k) ≫= k') mode st = (c ≫= (fun a => k a ≫= k')) mode st.
Proof.
  rewrite !bind_run. destruct (c mode st) as [s [a|e]]; [|done].
  by rewrite bind_run.
Qed.

Lemma bind_ext_run {A B} (c : Hk A) (k1 k2 : A -> Hk B) mode st :
  (forall a s, k1 a mode s = k2 a mode s) ->
  (c ≫= k1) mode st = (c ≫= k2) mode st.
Proof.
  intros H. rewrite !bind_run. destruct (c mode st) as [s [a|e]]; [|done]. apply H.
Qed.

Lemma bind_ret_run {A B} (a : A) (k : A -> Hk B) mode st :
  (mret a ≫= k) mode st = k a mode st.
Proof. reflexivity. Qed.

Lemma linear_call_ok d p (x out : tensor) lead w :
  shape x = lead ++ [w] -> linear_call d p x = Ok out -> shape out = lead ++ [d].
Proof.
  intros Hx. unfold linear_call. rewrite Hx, split_last_app.
  destruct (lookup_param _ "w" _ _) as [wt|]; [|done]. simpl.
  destruct (lookup_param _ "b" _ _) as [bt|]; [|done]. simpl.
  by intros [= <-].
Qed.


Lemma conditioning_none a n mask tokens :
  condition_mode a = "none" -> conditioning a n mask tokens = mret tokens.
Proof. intros H. unfold conditioning. destruct (token_dims a). by rewrite H. Qed.


(** *** Standard output is the only state a run can be told by *)

Lemma stdout_only_ret {A} (a : A) : stdout_only (mret a).
Proof. intros mode p n. exists p, n, [], (Ok a). intros w. by rewrite app_nil_r. Qed.

Lemma stdout_only_lift {A} (r : result A) : stdout_only (lift r).
Proof. intros mode p n. exists p, n, [], r. intros w. by rewrite app_nil_r. Qed.

Lemma stdout_only_print d : stdout_only (print d).
Proof. intros mode p n. by exists p, n, [d], (Ok tt). Qed.

Lemma stdout_only_bind {A B} (c : Hk A) (k : A -> Hk B) :
  stdout_only c -> (forall a, stdout_only (k a)) -> stdout_only (c ≫= k).
Proof.
  intros Hc Hk mode p n.
  destruct (Hc mode p n) as (p1 & n1 & d1 & r1 & H1).
  destruct r1 as [a|e].
  - destruct (Hk a mode p1 n1) as (p2 & n2 & d2 & r2 & H2).
    exists p2, n2, (d1 ++ d2), r2. intros w.
    rewrite bind_run, H1, H2. by rewrite app_assoc.
  - exists p1, n1, d1, (Raise e). intros w. by rewrite bind_run, H1.
Qed.

Lemma stdout_only_try_except {A} (body : Hk A) handler :
  stdout_only body -> (forall e, stdout_only (handler e)) ->
  stdout_only (try_except body handler).
Proof.
  intros Hb Hh mode p n.
  destruct (Hb mode p n) as (p1 & n1 & d1 & r1 & H1).
  destruct r1 as [a|e].
  - exists p1, n1, d1, (Ok a). intros w. unfold try_except. by rewrite H1.
  - destruct (Hh e mode p1 n1) as (p2 & n2 & d2 & r2 & H2).
    exists p2, n2, (d1 ++ d2), r2. intros w.
    unfold try_except. rewrite H1, H2. by rewrite app_assoc.
Qed.

Lemma stdout_only_get_parameter name shp init :
  stdout_only (get_parameter name shp init).
Proof.
  intros mode p n. unfold get_parameter. simpl.
  destruct (p !! top_level ≫= _) as [v|].
  - case_decide; eexists p, n, [], _; intros w; by rewrite app_nil_r.
  - destruct mode; eexists _, n, [], _; intros w; by rewrite app_nil_r.
Qed.

Lemma stdout_only_new_module {I} (m : hk_module I) : stdout_only (new_module m).
Proof.
  intros mode p n. eexists p, _, [], _. intros w. unfold new_module. simpl.
  by rewrite app_nil_r.
Qed.

Lemma stdout_only_call_module {I} (m : hk_module I) name i :
  stdout_only (call_module m name i).
Proof.
  intros mode p n. unfold call_module. simpl.
  destruct mode as [key|], (p !! name) as [q|];
    try (eexists p, n, [], _; intros w; by rewrite app_nil_r).
  destruct (module_init m (fold_in key name) i);
    eexists _, n, [], _; intros w; by rewrite app_nil_r.
Qed.

Lemma stdout_only_call_new {I} (m : hk_module I) i : stdout_only (call_new m i).
Proof.
  apply stdout_only_bind; [apply stdout_only_new_module|].
  intros name. apply stdout_only_call_module.
Qed.

Ltac stdout_only_tac :=
  repeat first
    [ apply stdout_only_ret | apply stdout_only_lift | apply stdout_only_print
    | apply stdout_only_get_parameter | apply stdout_only_new_module
    | apply stdout_only_call_module | apply stdout_only_call_new
    | apply stdout_only_try_except; [|intros ?]
    | apply stdout_only_bind; [|intros ?]
    | match goal with
      | |- stdout_only (match ?x with _ => _ end) => destruct x
      end ].

Lemma stdout_only_hidden_loop a n te h : stdout_only (hidden_loop a n te h).
Proof.
  revert h. induction n as [|n IH]; intros h; simpl; [apply stdout_only_ret|].
  stdout_only_tac. apply IH.
Qed.

Lemma stdout_only_score_net a args : stdout_only (score_net a args).
Proof.
  destruct args as [[t x] context]. unfold score_net.
  stdout_only_tac. apply stdout_only_hidden_loop.
Qed.

Lemma stdout_only_conditioning a n mask tokens :
  stdout_only (conditioning a n mask tokens).
Proof. unfold conditioning. stdout_only_tac. Qed.

Lemma stdout_only_forward_pass a t tokens time edge :
  stdout_only (forward_pass a t tokens time edge).
Proof. unfold forward_pass. stdout_only_tac. Qed.

Lemma stdout_only_scalar_model a i : stdout_only (scalar_model a i).
Proof.
  unfold scalar_model, scalar_tokens, guarded_reshape.
  stdout_only_tac; first [apply stdout_only_conditioning | apply stdout_only_forward_pass].
Qed.

Lemma stdout_only_structured_model a i : stdout_only (structured_model a i).
Proof.
  unfold structured_model, structured_tokens.
  stdout_only_tac; first [apply stdout_only_conditioning | apply stdout_only_forward_pass].
Qed.

Lemma transform_rerun_identical {I} (f : I -> Hk tensor) :
  (forall i, stdout_only (f i)) ->
  rerun_identical (snd (without_apply_rng (transform f))).
Proof.
  intros Hf params i w.
  destruct (Hf i ApplyMode params ∅) as (p' & n' & d & r & H).
  exists d, r. simpl. by rewrite !H.
Qed.

End Runs.

(** ** Shapes along a run *)

Section Shapes.
Context {SC : Scalar} {EX : Externals}.

Lemma ensures_bind {A B} mode (c : Hk A) (k : A -> Hk B) (P : A -> Prop) Q :
  ensures mode c P -> (forall a, P a -> ensures mode (k a) Q) ->
  ensures mode (c ≫= k) Q.
Proof.
  intros Hc Hk st st' b. rewrite bind_run.
  destruct (c mode st) as [s1 [a|e]] eqn:E; [|done].
  intros H. eapply Hk; [|exact H]. eapply Hc, E.
Qed.

Lemma ensures_ret {A} mode (a : A) (Q : A -> Prop) : Q a -> ensures mode (mret a) Q.
Proof. intros H st st' b [= _ <-]. exact H. Qed.

Lemma ensures_lift {A} mode (r : result A) (Q : A -> Prop) :
  (forall a, r = Ok a -> Q a) -> ensures mode (lift r) Q.
Proof. intros H st st' b [= _ ->]. by apply H. Qed.

Lemma ensures_true {A} mode (c : Hk A) : ensures mode c (fun _ => True).
Proof. by intros st st' a _. Qed.

Lemma ensures_call_module {I} mode (m : hk_module I) name i (Q : tensor -> Prop) :
  (forall p out, module_call m p i = Ok out -> Q out) ->
  ensures mode (call_module m name i) Q.
Proof.
  intros H st st' out. unfold call_module.
  destruct mode as [key|], (hk_params st !! name) as [q|];
    try (intros [= _ E]; by eapply H).
  destruct (module_init m (fold_in key name) i); [|done].
  intros [= _ E]; by eapply H.
Qed.

Lemma ensures_get_parameter name shp init (Q : tensor -> Prop) :
  (forall v, shape v = shp -> Q v) ->
  ensures ApplyMode (get_parameter name shp init) Q.
Proof.
  intros H st st' v. unfold get_parameter.
  destruct (hk_params st !! top_level ≫= _) as [u|]; [|done].
  case_decide; [|done]. intros [= _ <-]. by apply H.
Qed.

Lemma conditioning_shape a B N (mask tokens : tensor) :
  shape mask = [B; N] -> shape tokens = [B; N; fst (token_dims a)] ->
  ensures ApplyMode (conditioning a N mask tokens)
    (fun out => shape out = [B; N; entering_width a]).
Proof.
  intros Hm Ht. unfold conditioning, entering_width.
  destruct (token_dims a) as [T C] eqn:Hd. simpl in *.
  destruct (String.eqb (condition_mode a) "none") eqn:Enone; simpl.
  { assert (String.eqb (condition_mode a) "concat" = false) as ->.
    { apply String.eqb_eq in Enone. by rewrite Enone. }
    by apply ensures_ret. }
  eapply ensures_bind; [apply ensures_get_parameter; intros v Hv; exact Hv|].
  intros tok Htok; simpl in Htok.
  eapply ensures_bind; [apply ensures_lift; intros m Hm'; exact Hm'|].
  intros m Hm'. apply reshape_infer_ok in Hm' as (Hs & _ & Hne).
  rewrite Hm in Hs. simpl in Hs, Hne.
  replace (B * (N * 1) / (N * 1)) with B in Hs
    by (symmetry; apply Nat.div_mul; lia).
  eapply ensures_bind; [apply ensures_lift; intros g Hg; exact Hg|].
  intros g Hg. apply binop_ok in Hg.
  rewrite Hs, Htok, broadcast_shapes_mask_token in Hg. injection Hg as Hg.
  destruct (String.eqb (condition_mode a) "add") eqn:Eadd.
  { assert (String.eqb (condition_mode a) "concat" = false) as Ec.
    { apply String.eqb_eq in Eadd. by rewrite Eadd. }
    rewrite Ec. apply ensures_lift. intros out Hout.
    apply binop_ok in Hout.
    unfold token_dims in Hd. rewrite Ec, Eadd in Hd. injection Hd as <- <-.
    rewrite Ht, <- Hg, broadcast_shapes_same in Hout. by injection Hout as <-. }
  destruct (String.eqb (condition_mode a) "concat") eqn:Ec.
  - eapply ensures_bind; [apply ensures_lift; intros c Hc; exact Hc|].
    intros c Hc. apply broadcast_to_ok in Hc.
    rewrite Ht in Hc. change [B; N; T] with ([B; N] ++ [T]) in Hc.
    rewrite drop_last_app in Hc.
    apply ensures_lift. intros out Hout.
    eapply (concatenate_last_ok _ _ _ [B; N]) in Hout; [exact Hout|by rewrite Ht|done].
  - by apply ensures_ret.
Qed.

Context {CT : Contracts EX}.

Lemma forward_pass_shape a t (tokens time : tensor) edge lead w :
  shape tokens = lead ++ [w] ->
  (forall t x, shape (scale_or_identity (tm_output_scale_fn a) t x) = shape x) ->
  forall mode, ensures mode (forward_pass a t tokens time edge)
    (fun out => shape out = lead ++ [1]).
Proof.
  intros Ht Hf mode. unfold forward_pass.
  eapply ensures_bind; [apply ensures_true|]. intros name _.
  eapply ensures_bind.
  { apply ensures_call_module. intros p h Hh. apply transformer_tokens in Hh. exact Hh. }
  intros h Hh. simpl in Hh.
  eapply ensures_bind; [apply ensures_true|]. intros _ _.
  eapply ensures_bind.
  { eapply ensures_bind; [apply ensures_true|]. intros nm _.
    apply ensures_call_module. intros p out Hout.
    eapply linear_call_ok in Hout; [exact Hout|by rewrite Hh]. }
  intros out Hout. simpl in Hout.
  eapply ensures_bind; [apply ensures_true|]. intros _ _.
  apply ensures_ret. by rewrite Hf.
Qed.

Lemma scalar_tokens_shape a i B N :
  shape (in_data i) = [B; N; 1] -> shape (in_data_id i) = [B; N] ->
  shape (in_condition_mask i) = [B; N] ->
  ensures ApplyMode (scalar_tokens a i)
    (fun r => shape (fst r) = [B; N; entering_width a]).
Proof.
  intros Hd Hi Hm. unfold scalar_tokens.
  pose proof (conditioning_shape a B N) as Hcond.
  destruct (token_dims a) as [T C] eqn:Hdims. simpl in Hcond.
  eapply ensures_bind; [apply ensures_true|]. intros _ _.
  eapply ensures_bind; [apply ensures_lift; intros u Hu; exact Hu|].
  intros [[b n] c] Hu. rewrite Hd in Hu. injection Hu as <- <- <-.
  eapply ensures_bind;
    [apply ensures_lift; intros x Hx; exact (proj1 (reshape_row _ _ _ _ Hi Hx))|].
  intros ids Hids.
  eapply ensures_bind;
    [apply ensures_lift; intros x Hx; exact (proj1 (reshape_row _ _ _ _ Hm Hx))|].
  intros mask Hmask.
  eapply ensures_bind; [apply ensures_true|]. intros tokenizer _.
  eapply ensures_bind; [apply ensures_true|]. intros time_embeder _.
  eapply ensures_bind; [apply ensures_true|]. intros _ _.
  eapply ensures_bind.
  { apply ensures_call_module. intros p tok Htok.
    apply tokenizer_tokens in Htok as [Htok _]. exact Htok. }
  intros tokens Htok. simpl in Htok. rewrite Hids in Htok.
  eapply ensures_bind; [apply ensures_true|]. intros _ _.
  eapply ensures_bind; [apply ensures_true|]. intros _ _.
  eapply ensures_bind; [apply ensures_true|]. intros time _.
  eapply ensures_bind; [apply ensures_true|]. intros _ _.
  eapply ensures_bind; [apply Hcond; [exact Hmask|exact Htok]|].
  intros out Hout. simpl in Hout.
  eapply ensures_bind; [apply ensures_true|]. intros _ _.
  by apply ensures_ret.
Qed.

Lemma structured_tokens_shape a i B N :
  shape (in_data i) = [B; N; 1] -> shape (in_data_id i) = [B; N] ->
  shape (in_condition_mask i) = [B; N] ->
  ensures ApplyMode (structured_tokens a i)
    (fun r => shape (fst r) = [B; N; entering_width a]).
Proof.
  intros Hd Hi Hm. unfold structured_tokens.
  pose proof (conditioning_shape a B N) as Hcond.
  destruct (token_dims a) as [T C] eqn:Hdims. simpl in Hcond.
  eapply ensures_bind; [apply ensures_lift; intros u Hu; exact Hu|].
  intros [[b n] c] Hu. rewrite Hd in Hu. injection Hu as <- <- <-.
  eapply ensures_bind; [apply ensures_true|]. intros _ _.
  eapply ensures_bind;
    [apply ensures_lift; intros x Hx; exact (proj1 (reshape_row _ _ _ _ Hi Hx))|].
  intros ids Hids.
  eapply ensures_bind;
    [apply ensures_lift; intros x Hx; exact (proj1 (reshape_row _ _ _ _ Hm Hx))|].
  intros mask Hmask.
  eapply ensures_bind; [apply ensures_true|]. intros _ _.
  eapply ensures_bind; [apply ensures_true|]. intros tokenizer _.
  eapply ensures_bind; [apply ensures_true|]. intros time_embeder _.
  eapply ensures_bind.
  { apply ensures_call_module. intros p tok Htok.
    apply tokenizer_tokens in Htok as [Htok _]. exact Htok. }
  intros tokens Htok. simpl in Htok. rewrite Hids in Htok.
  eapply ensures_bind; [apply ensures_true|]. intros _ _.
  eapply ensures_bind; [apply ensures_true|]. intros time _.
  eapply ensures_bind; [apply ensures_true|]. intros _ _.
  eapply ensures_bind; [apply Hcond; [exact Hmask|exact Htok]|].
  intros out Hout. simpl in Hout.
  eapply ensures_bind; [apply ensures_true|]. intros _ _.
  by apply ensures_ret.
Qed.

(** The score of a model made of a token stage and the forward pass. *)
Lemma model_score_shape a i B N
    (tokens_of : transformer_model_args -> model_input -> Hk (tensor * tensor)) :
  ensures ApplyMode (tokens_of a i)
    (fun r => shape (fst r) = [B; N; entering_width a]) ->
  (forall t x, shape (scale_or_identity (tm_output_scale_fn a) t x) = shape x) ->
  ensures ApplyMode
    ('(tokens, time) ← tokens_of a i;
     forward_pass a (in_t i) tokens time (kwarg_default (base_mask a) (in_edge_mask i)))
    (fun out => shape out = [B; N; 1]).
Proof.
  intros Htok Hf. eapply ensures_bind; [exact Htok|].
  intros [tokens time] Hs. simpl in Hs.
  eapply (forward_pass_shape a _ tokens time _ [B; N]); [exact Hs|exact Hf].
Qed.

End Shapes.

(** ** Two runs side by side *)

Section Simulation.
Context {SC : Scalar} {EX : Externals}.
Context (T : option tensor -> option tensor -> Prop).

Lemma sim_bind {A A' B B'} (c1 : Hk A) (c2 : Hk A') (k1 : A -> Hk B)
    (k2 : A' -> Hk B') (P : A -> A' -> Prop) (Q : B -> B' -> Prop) :
  simulates T c1 c2 P ->
  (forall a a', P a a' -> simulates T (k1 a) (k2 a') Q) ->
  simulates T (c1 ≫= k1) (c2 ≫= k2) Q.
Proof.
  intros Hc Hk st1 st2 Hst. rewrite !bind_run.
  specialize (Hc st1 st2 Hst). unfold same_outcome in Hc.
  destruct (c1 ApplyMode st1) as [s1 [a|e1]], (c2 ApplyMode st2) as [s2 [a'|e2]];
    try done.
  destruct Hc as [Hs HP]. by apply Hk.
Qed.

Lemma sim_ret {A B} (a : A) (b : B) (Q : A -> B -> Prop) :
  Q a b -> simulates T (mret a) (mret b) Q.
Proof. intros H st1 st2 Hst. by split. Qed.

Lemma sim_lift {A B} (r1 : result A) (r2 : result B) (Q : A -> B -> Prop) :
  same_result Q r1 r2 -> simulates T (lift r1) (lift r2) Q.
Proof.
  intros H st1 st2 Hst. unfold lift, same_outcome.
  destruct r1, r2; try done; by split.
Qed.

Lemma sim_lift_same {A} (r : result A) :
  simulates T (lift r) (lift r) (fun a b => a = b /\ r = Ok a).
Proof. apply sim_lift. by destruct r. Qed.

Lemma sim_print d : simulates T (print d) (print d) (fun _ _ => True).
Proof.
  intros st1 st2 (Hn & Ho & Hp & HT). simpl. split; [|done].
  split; [done|]. split; [simpl; by rewrite Ho|]. by split.
Qed.

Lemma sim_new_module {I} (m : hk_module I) :
  class_name m <> top_level ->
  (forall n : nat, class_name m +:+ "_" +:+ pretty n <> top_level) ->
  simulates T (new_module m) (new_module m)
    (fun x y => x = y /\ x <> top_level).
Proof.
  intros H0 Hn st1 st2 (Hnm & Ho & Hp & HT). unfold new_module. simpl.
  rewrite Hnm. split.
  - split; [done|]. split; [done|]. by split.
  - split; [done|]. by destruct (_ =? 0)%nat.
Qed.

Lemma sim_call_module {I} (m : hk_module I) name i :
  name <> top_level ->
  simulates T (call_module m name i) (call_module m name i)
    (fun x y => x = y /\ exists p, module_call m p i = Ok x).
Proof.
  intros Hname st1 st2 Hst. pose proof Hst as (Hnm & Ho & Hp & HT).
  unfold call_module. rewrite (Hp name Hname).
  destruct (hk_params st2 !! name) as [q|]; simpl;
    destruct (module_call m _ i) eqn:E; try done; split; try done; eauto.
Qed.


Lemma sim_call_new {I} (m : hk_module I) i :
  class_name m <> top_level ->
  (forall n : nat, class_name m +:+ "_" +:+ pretty n <> top_level) ->
  simulates T (call_new m i) (call_new m i)
    (fun x y => x = y /\ exists p, module_call m p i = Ok x).
Proof.
  intros H0 Hn. eapply sim_bind; [by apply sim_new_module|].
  intros n1 n2 [<- Hne]. by apply sim_call_module.
Qed.


Lemma simulates_apply {I} (f1 f2 : I -> Hk tensor) i1 i2 p1 p2 w :
  simulates T (f1 i1) (f2 i2) eq ->
  agree T (HkState p1 ∅ w) (HkState p2 ∅ w) ->
  snd (without_apply_rng (transform f1)) p1 i1 w =
  snd (without_apply_rng (transform f2)) p2 i2 w.
Proof.
  intros Hsim Hst. specialize (Hsim _ _ Hst). simpl.
  unfold same_outcome in Hsim.
  destruct (f1 i1 ApplyMode _) as [s1 [a|e1]], (f2 i2 ApplyMode _) as [s2 [b|e2]];
    try done; destruct Hsim as [(_ & -> & _) ->]; done.
Qed.

(** One step of the same statement on both sides. *)
Ltac sim_step :=
  first
    [ eapply sim_bind; [apply sim_print | intros _ _ _]
    | eapply sim_bind; [apply sim_lift_same | intros ? ? [<- ?]]
    | eapply sim_bind;
      [apply sim_new_module; [done | intros ?; simpl; discriminate]
      | intros ? ? [<- ?]]
    | eapply sim_bind; [apply sim_call_module; assumption | intros ? ? [<- ?]]
    | eapply sim_bind;
      [apply sim_call_new; [done | intros ?; simpl; discriminate]
      | intros ? ? [<- ?]] ].

Lemma sim_forward_pass a t tokens time edge :
  simulates T (forward_pass a t tokens time edge)
              (forward_pass a t tokens time edge) eq.
Proof. unfold forward_pass. repeat sim_step. by apply sim_ret. Qed.

Lemma sim_guarded_reshape tokens n d :
  simulates T (guarded_reshape tokens n d) (guarded_reshape tokens n d)
    (fun _ _ => True).
Proof.
  intros st1 st2 (Hn & Ho & Hp & HT). unfold guarded_reshape, try_except.
  rewrite !bind_run. unfold lift.
  destruct (reshape_infer tokens [n; d]); simpl; (split; [|done]);
    (split; [done|]); (split; [simpl; by rewrite Ho|]); by split.
Qed.

(** *** Mode [none]: the mask is only looked at for its shape *)

Lemma sim_scalar_none a i mask :
  condition_mode a = "none" ->
  shape mask = shape (in_condition_mask i) ->
  simulates T (scalar_model a i) (scalar_model a (with_condition_mask mask i)) eq.
Proof.
  intros Hmode Hshape. unfold scalar_model, scalar_tokens. simpl.
  destruct (token_dims a) as [td cd]. rewrite Hshape.
  eapply sim_bind with (P := eq).
  2:{ intros [tokens time] ? <-. apply sim_forward_pass. }
  sim_step.
  eapply sim_bind; [apply sim_lift_same | intros [[b n] c] ? [<- _]].
  sim_step.
  eapply sim_bind;
    [apply sim_lift, reshape_infer_same_shape; by symmetry | intros m1 m2 _].
  do 5 sim_step.
  eapply sim_bind; [apply sim_guarded_reshape | intros _ _ _].
  do 2 sim_step.
  rewrite !conditioning_none by done.
  eapply sim_bind with (P := eq); [by apply sim_ret | intros ? ? <-].
  sim_step. by apply sim_ret.
Qed.

Lemma sim_structured_none a i mask :
  condition_mode a = "none" ->
  shape mask = shape (in_condition_mask i) ->
  simulates T (structured_model a i)
              (structured_model a (with_condition_mask mask i)) eq.
Proof.
  intros Hmode Hshape. unfold structured_model, structured_tokens. simpl.
  destruct (token_dims a) as [td cd]. rewrite Hshape.
  eapply sim_bind with (P := eq).
  2:{ intros [tokens time] ? <-. apply sim_forward_pass. }
  eapply sim_bind; [apply sim_lift_same | intros [[b n] c] ? [<- _]].
  do 2 sim_step.
  eapply sim_bind;
    [apply sim_lift, reshape_infer_same_shape; by symmetry | intros m1 m2 ->].
  do 7 sim_step.
  rewrite !conditioning_none by done.
  eapply sim_bind with (P := eq); [by apply sim_ret | intros ? ? <-].
  sim_step. by apply sim_ret.
Qed.

End Simulation.

Ltac sim_step :=
  first
    [ eapply sim_bind; [apply sim_print | intros _ _ _]
    | eapply sim_bind; [apply sim_lift_same | intros ? ? [<- ?]]
    | eapply sim_bind;
      [apply sim_new_module; [done | intros ?; simpl; discriminate]
      | intros ? ? [<- ?]]
    | eapply sim_bind; [apply sim_call_module; assumption | intros ? ? [<- ?]]
    | eapply sim_bind;
      [apply sim_call_new; [done | intros ?; simpl; discriminate]
      | intros ? ? [<- ?]] ].

(** ** A mask of zeros *)

Section ZeroMask.
Context {SC : Scalar} {EX : Externals}.







Context {CT : Contracts EX}.




End ZeroMask.

(** ** The guarded reshape *)

Section Guard.
Context {SC : Scalar} {EX : Externals}.

Lemma guarded_reshape_ok tokens n d r mode st :
  reshape_infer tokens [n; d] = Ok r ->
  guarded_reshape tokens n d mode st =
  (HkState (hk_params st) (hk_names st)
     (stdout st ++ [ReshapedTokensShape (shape r)]), Ok tt).
Proof.
  intros H. unfold guarded_reshape, try_except. rewrite bind_run.
  unfold lift. by rewrite H.
Qed.

Lemma guarded_reshape_raise tokens n d e mode st :
  reshape_infer tokens [n; d] = Raise e ->
  guarded_reshape tokens n d mode st =
  (HkState (hk_params st) (hk_names st)
     (stdout st ++ [ErrorReshapingTokens e]), Ok tt).
Proof.
  intros H. unfold guarded_reshape, try_except. rewrite bind_run.
  unfold lift. by rewrite H.
Qed.

Lemma guarded_reshape_run tokens n d mode st :
  exists g, reshape_diag g = true /\
    guarded_reshape tokens n d mode st =
    (HkState (hk_params st) (hk_names st) (stdout st ++ [g]), Ok tt).
Proof.
  destruct (reshape_infer tokens [n; d]) as [r|e] eqn:E.
  - eexists; split; [|by apply guarded_reshape_ok]. done.
  - eexists; split; [|by apply guarded_reshape_raise]. done.
Qed.

Lemma other_diags_app w1 w2 :
  other_diags (w1 ++ w2) = other_diags w1 ++ other_diags w2.
Proof. apply List.filter_app. Qed.

Lemma guard_then {A} tokens n d (rest : Hk A) mode st :
  stdout_only rest ->
  same_but_reshape_diags ((guarded_reshape tokens n d;; rest) mode st) (rest mode st).
Proof.
  intros Hrest. destruct st as [p nm w].
  destruct (guarded_reshape_run tokens n d mode (HkState p nm w)) as (g & Hg & Hrun).
  rewrite bind_run, Hrun. simpl.
  destruct (Hrest mode p nm) as (p' & n' & dd & r & H).
  rewrite !H. unfold same_but_reshape_diags. cbn [fst snd hk_params hk_names stdout].
  repeat split. rewrite !other_diags_app. f_equal.
  unfold other_diags at 2. cbn [List.filter]. rewrite Hg. cbn [negb].
  by rewrite app_nil_r.
Qed.

Lemma same_but_reshape_diags_prefix {A B} (c : Hk A) (k1 k2 : A -> Hk B) mode st :
  (forall a s, same_but_reshape_diags (k1 a mode s) (k2 a mode s)) ->
  same_but_reshape_diags ((c ≫= k1) mode st) ((c ≫= k2) mode st).
Proof.
  intros H. rewrite !bind_run. destruct (c mode st) as [s [a|e]]; [apply H|done].
Qed.

Lemma same_but_reshape_diags_suffix {A B} (c1 c2 : Hk A) (k : A -> Hk B) mode st :
  same_but_reshape_diags (c1 mode st) (c2 mode st) ->
  (forall a, stdout_only (k a)) ->
  same_but_reshape_diags ((c1 ≫= k) mode st) ((c2 ≫= k) mode st).
Proof.
  intros H Hk. rewrite !bind_run.
  destruct (c1 mode st) as [[p1 n1 w1] r1], (c2 mode st) as [[p2 n2 w2] r2].
  destruct H as (Hr & Hp & Hn & Hw). simpl in *. subst r2 p2 n2.
  destruct r1 as [a|e]; [|done].
  destruct (Hk a mode p1 n1) as (p' & n' & dd & r & H).
  rewrite !H. unfold same_but_reshape_diags. cbn [fst snd hk_params hk_names stdout].
  repeat split. rewrite !other_diags_app. by rewrite Hw.
Qed.

Lemma scalar_tokens_guard a i mode st :
  same_but_reshape_diags (scalar_tokens a i mode st)
                         (scalar_tokens_unguarded a i mode st).
Proof.
  unfold scalar_tokens, scalar_tokens_unguarded.
  destruct (token_dims a) as [td cd]. revert st.
  enough (forall st, same_but_reshape_diags
            ((print (ModelCalled (shape (in_data i)) (shape (in_data_id i))
                       (shape (in_condition_mask i))) ≫= _) mode st) _) by done.
  intros st.
  apply same_but_reshape_diags_prefix. intros _ s0.
  apply same_but_reshape_diags_prefix. intros [[b n] c] s1.
  apply same_but_reshape_diags_prefix. intros ids s2.
  apply same_but_reshape_diags_prefix. intros mask s3.
  apply same_but_reshape_diags_prefix. intros tokenizer s4.
  apply same_but_reshape_diags_prefix. intros time_embeder s5.
  apply same_but_reshape_diags_prefix. intros _ s6.
  apply same_but_reshape_diags_prefix. intros tokens s7.
  apply same_but_reshape_diags_prefix. intros _ s8.
  apply guard_then.
  apply stdout_only_bind; [apply stdout_only_call_module|]. intros time.
  apply stdout_only_bind; [apply stdout_only_print|]. intros _.
  apply stdout_only_bind; [apply stdout_only_conditioning|]. intros out.
  apply stdout_only_bind; [apply stdout_only_print|]. intros _.
  apply stdout_only_ret.
Qed.

Lemma scalar_model_guard a i mode st :
  same_but_reshape_diags (scalar_model a i mode st)
                         (scalar_model_unguarded a i mode st).
Proof.
  unfold scalar_model, scalar_model_unguarded.
  apply same_but_reshape_diags_suffix; [apply scalar_tokens_guard|].
  intros [tokens time]. apply stdout_only_forward_pass.
Qed.

Lemma scalar_apply_guard a p i w :
  snd (scalar_apply a p i w) = snd (scalar_apply_unguarded a p i w) /\
  other_diags (fst (scalar_apply a p i w)) =
  other_diags (fst (scalar_apply_unguarded a p i w)).
Proof.
  pose proof (scalar_model_guard a i ApplyMode (HkState p ∅ w)) as (Hr & _ & _ & Hw).
  unfold scalar_apply, scalar_apply_unguarded, scalar_fns. simpl.
  destruct (scalar_model a i ApplyMode _) as [s1 r1].
  destruct (scalar_model_unguarded a i ApplyMode _) as [s2 r2].
  done.
Qed.

End Guard.

(** ** The layers of the MLP and the output scaling *)

Section Layers.
Context {SC : Scalar} {EX : Externals}.

Lemma hidden_loop_stack a n te h mode st :
  hidden_loop a n te h mode st =
  dense_stack a (replicate n (layer_norm a)) te h mode st.
Proof.
  revert h st. induction n as [|n IH]; intros h st; [done|].
  cbn [hidden_loop replicate dense_stack].
  apply bind_ext_run. intros x s. apply bind_ext_run. intros y s'.
  apply bind_ext_run. intros z s''. apply IH.
Qed.

Lemma score_net_stack a args mode st :
  score_net a args mode st =
  score_net_layers a (false :: replicate (num_hidden a - 1) (layer_norm a))
    args mode st.
Proof.
  destruct args as [[t x] context]. unfold score_net, score_net_layers.
  apply bind_ext_run. intros x' s1. apply bind_ext_run. intros te s2.
  cbn [dense_stack]. rewrite !bind_assoc_run.
  apply bind_ext_run. intros l s3. rewrite !bind_assoc_run.
  apply bind_ext_run. intros s s4. rewrite bind_assoc_run, bind_ret_run.
  rewrite !bind_run. by rewrite hidden_loop_stack.
Qed.

Lemma hidden_loop_scale f a n te h mode st :
  hidden_loop (mlp_with_output_scale f a) n te h mode st =
  hidden_loop a n te h mode st.
Proof.
  revert h st. induction n as [|n IH]; intros h st; [done|].
  cbn [hidden_loop]. apply bind_ext_run. intros x s.
  apply bind_ext_run. intros y s'. simpl.
  apply bind_ext_run. intros z s''. apply IH.
Qed.

Lemma score_net_scale f a args mode st :
  score_net (mlp_with_output_scale f a) args mode st =
  (h ← score_net_hidden a args;
   out ← call_new (Linear (output_dim a)) h;
   mret (scale_or_identity f (fst (fst args)) out)) mode st.
Proof.
  destruct args as [[t x] context]. unfold score_net, score_net_hidden. simpl.
  rewrite bind_assoc_run. apply bind_ext_run. intros x' s1.
  rewrite bind_assoc_run. apply bind_ext_run. intros te s2.
  rewrite bind_assoc_run. apply bind_ext_run. intros l s3.
  rewrite bind_assoc_run. apply bind_ext_run. intros s s4.
  rewrite !bind_run. by rewrite hidden_loop_scale.
Qed.

Lemma scalar_model_scale f a i mode st :
  scalar_model (with_output_scale f a) i mode st =
  (h ← transformer_output a scalar_tokens i; final_projection f (in_t i) h) mode st.
Proof.
  unfold scalar_model, transformer_output.
  change (scalar_tokens (with_output_scale f a) i) with (scalar_tokens a i).
  rewrite bind_assoc_run. apply bind_ext_run. intros [tokens time] s1.
  unfold forward_pass. simpl.
  rewrite bind_assoc_run. apply bind_ext_run. intros model s2.
  rewrite bind_assoc_run. apply bind_ext_run. intros h s3.
  rewrite bind_assoc_run. apply bind_ext_run. intros [] s4.
  by rewrite bind_ret_run.
Qed.

Lemma structured_model_scale f a i mode st :
  structured_model (with_output_scale f a) i mode st =
  (h ← transformer_output a structured_tokens i; final_projection f (in_t i) h) mode st.
Proof.
  unfold structured_model, transformer_output.
  change (structured_tokens (with_output_scale f a) i) with (structured_tokens a i).
  rewrite bind_assoc_run. apply bind_ext_run. intros [tokens time] s1.
  unfold forward_pass. simpl.
  rewrite bind_assoc_run. apply bind_ext_run. intros model s2.
  rewrite bind_assoc_run. apply bind_ext_run. intros h s3.
  rewrite bind_assoc_run. apply bind_ext_run. intros [] s4.
  by rewrite bind_ret_run.
Qed.

End Layers.

(** * The claims *)

Section Claims.
Context {SC : Scalar} {EX : Externals}.

(** C1 (the code departs from it). [conditional_mlp] and
    [scalar_transformer_model] return the pair (init, apply) that
    [hk.without_apply_rng (hk.transform ...)] gives for their inner function;
    [structured_transformer_model] defines its inner function and ends
    without transforming or returning it, so that its value is [None]. *)
Theorem structured_factory_returns_none :
  (forall a, conditional_mlp a = Some (mlp_fns a)) /\
  (forall a, scalar_transformer_model a = Some (scalar_fns a)) /\
  (forall a e, structured_transformer_model a e = None).
Proof. repeat split. Qed.

(** C6. Each model computes its final linear projection without reading
    [output_scale_fn].  Built without one ([None]) it returns that
    projection unchanged; built with [g] it returns [g t] of the projection,
    [g] being applied once.  So the score an apply function returns with
    [g] is [g t] of the score it returns without. *)
Theorem output_scale_applied_once :
  (forall a args g mode st,
     score_net (mlp_with_output_scale None a) args mode st =
       mlp_projection a args mode st /\
     score_net (mlp_with_output_scale (Some g) a) args mode st =
       (out ← mlp_projection a args; mret (g (fst (fst args)) out)) mode st) /\
  (forall a i g mode st,
     scalar_model (with_output_scale None a) i mode st =
       (out ← transformer_projection a scalar_tokens i;
        print (FinalOutputShape (shape out));;
        mret out) mode st /\
     scalar_model (with_output_scale (Some g) a) i mode st =
       (out ← transformer_projection a scalar_tokens i;
        let out := g (in_t i) out in
        print (FinalOutputShape (shape out));;
        mret out) mode st) /\
  (forall a i g mode st,
     structured_model (with_output_scale None a) i mode st =
       (out ← transformer_projection a structured_tokens i;
        print (FinalOutputShape (shape out));;
        mret out) mode st /\
     structured_model (with_output_scale (Some g) a) i mode st =
       (out ← transformer_projection a structured_tokens i;
        let out := g (in_t i) out in
        print (FinalOutputShape (shape out));;
        mret out) mode st) /\
  (forall a g p args w,
     snd (mlp_apply (mlp_with_output_scale (Some g) a) p args w) =
     g (fst (fst args)) <$> snd (mlp_apply (mlp_with_output_scale None a) p args w)) /\
  (forall a g p i w,
     snd (scalar_apply (with_output_scale (Some g) a) p i w) =
     g (in_t i) <$> snd (scalar_apply (with_output_scale None a) p i w)) /\
  (forall a g p i w,
     snd (structured_apply (with_output_scale (Some g) a) p i w) =
     g (in_t i) <$> snd (structured_apply (with_output_scale None a) p i w)).
Proof.
  assert (forall a args g mode st,
     score_net (mlp_with_output_scale None a) args mode st =
       mlp_projection a args mode st /\
     score_net (mlp_with_output_scale (Some g) a) args mode st =
       (out ← mlp_projection a args; mret (g (fst (fst args)) out)) mode st) as Hmlp.
  { intros a args g mode st. rewrite !score_net_scale. unfold mlp_projection.
    split.
    - apply bind_ext_run. intros h s. rewrite !bind_run.
      by destruct (call_new _ h mode s) as [s' [out|e]].
    - by rewrite bind_assoc_run. }
  assert (forall tokens_of a i g mode st,
     (h ← transformer_output a tokens_of i; final_projection None (in_t i) h) mode st =
       (out ← transformer_projection a tokens_of i;
        print (FinalOutputShape (shape out));;
        mret out) mode st /\
     (h ← transformer_output a tokens_of i; final_projection (Some g) (in_t i) h)
       mode st =
       (out ← transformer_projection a tokens_of i;
        let out := g (in_t i) out in
        print (FinalOutputShape (shape out));;
        mret out) mode st) as Htr.
  { intros tokens_of a i g mode st. unfold transformer_projection, final_projection.
    by rewrite !bind_assoc_run. }
  split; [exact Hmlp|]. split; [|split]; [| |split; [|split]].
  - intros a i g mode st. rewrite !scalar_model_scale. apply Htr.
  - intros a i g mode st. rewrite !structured_model_scale. apply Htr.
  - intros a g p args w.
    unfold mlp_apply, mlp_fns, without_apply_rng, transform. cbn [fst snd].
    destruct (Hmlp a args g ApplyMode (HkState p ∅ w)) as [-> ->].
    rewrite bind_run.
    by destruct (mlp_projection a args ApplyMode _) as [s [out|e]].
  - intros a g p i w.
    unfold scalar_apply, scalar_fns, without_apply_rng, transform. cbn [fst snd].
    rewrite !scalar_model_scale.
    destruct (Htr scalar_tokens a i g ApplyMode (HkState p ∅ w)) as [-> ->].
    rewrite !bind_run.
    by destruct (transformer_projection a scalar_tokens i ApplyMode _) as [s [out|e]].
  - intros a g p i w.
    unfold structured_apply, structured_model_fns, without_apply_rng, transform.
    cbn [fst snd]. rewrite !structured_model_scale.
    destruct (Htr structured_tokens a i g ApplyMode (HkState p ∅ w)) as [-> ->].
    rewrite !bind_run.
    by destruct (transformer_projection a structured_tokens i ApplyMode _)
      as [s [out|e]].
Qed.

(** C8 (amended). [score_net] concatenates [x] and [context] along the last
    axis, embeds [t] once, and runs [max 1 num_hidden] dense layers of width
    [hidden_dim], each adding that embedding before its activation; layer
    normalisation, when [layer_norm] is set, follows the activation of every
    hidden layer but the first; a dense layer to [output_dim] and the output
    scaling end it. *)
Theorem score_net_is_a_dense_stack a args mode st :
  score_net a args mode st =
  score_net_layers a (false :: replicate (num_hidden a - 1) (layer_norm a))
    args mode st /\
  length (false :: replicate (num_hidden a - 1) (layer_norm a)) =
  Nat.max 1 (num_hidden a).
Proof.
  split; [apply score_net_stack|]. simpl. rewrite length_replicate. lia.
Qed.

End Claims.

(** C8 as worded fails: with two hidden layers and [layer_norm] set, the
    network of the specification normalises after both activations, the
    code after the second only, and on the same parameters and input the
    two give different scores. *)
Lemma score_net_skips_first_layer_norm :
  mlp_apply (EX := toy) toy_mlp toy_mlp_params toy_mlp_input [] =
    ([], Ok (@Tensor Z_scalar [1; 1] [128%Z])) /\
  mlp_apply_spec (EX := toy) toy_mlp toy_mlp_params toy_mlp_input [] =
    ([], Ok (@Tensor Z_scalar [1; 1] [12%Z])) /\
  ~ mlp_matches_description (EX := toy) toy_mlp.
Proof.
  assert (mlp_apply (EX := toy) toy_mlp toy_mlp_params toy_mlp_input [] =
          ([], Ok (@Tensor Z_scalar [1; 1] [128%Z]))) as Hcode
    by (vm_compute; reflexivity).
  assert (mlp_apply_spec (EX := toy) toy_mlp toy_mlp_params toy_mlp_input [] =
          ([], Ok (@Tensor Z_scalar [1; 1] [12%Z]))) as Hspec
    by (vm_compute; reflexivity).
  split; [exact Hcode|]. split; [exact Hspec|].
  intros H. specialize (H toy_mlp_params toy_mlp_input []).
  rewrite Hcode, Hspec in H. discriminate H.
Qed.

(** The small instances honour the contracts; over the integers zero
    times any value is zero. *)

Lemma Z_absorbed (x : Z) : absorbed (SC := Z_scalar) x.
Proof. reflexivity. Qed.

Lemma size_of_app_one (lead : list nat) (w : nat) :
  size_of (lead ++ [w]) = size_of lead * w.
Proof.
  induction lead as [|d lead IH]; [simpl; lia|].
  change (size_of ((d :: lead) ++ [w])) with (d * size_of (lead ++ [w])).
  rewrite IH, size_of_cons. lia.
Qed.

Lemma toy_contracts : Contracts toy.
Proof.
  split.
  - intros dim max_size p ids value meta tokens. simpl. unfold toy_tokenizer.
    case_decide as Hl; [|done]. destruct Hl as [Hi Hv].
    intros [= <-]. split; [done|]. unfold well_formed. simpl.
    rewrite size_of_app_one, <- Hi.
    rewrite (concat_length_rows (SC := Z_scalar) _ dim).
    + rewrite length_zip_with. lia.
    + apply Forall_forall. intros c Hc.
      apply elem_of_lookup_zip_with in Hc as (k & x & y & -> & _ & _).
      unfold toy_token. by rewrite length_map, length_seq.
  - intros args p tokens time mask h. simpl. unfold toy_transformer.
    by intros [= <-].
Qed.

Section ShapeClaims.
Context {SC : Scalar} {EX : Externals} {CT : Contracts EX}.

Lemma entering_width_defined a :
  condition_mode a = "concat" \/ condition_mode a = "add" \/
  condition_mode a = "none" ->
  entering_width a = token_dim a + condition_token_dim a /\
  fst (token_dims a) =
    (if String.eqb (condition_mode a) "concat" then token_dim a
     else token_dim a + condition_token_dim a).
Proof.
  unfold entering_width, token_dims.
  intros [H|[H|H]]; rewrite H; simpl; done.
Qed.

(** C2. For data of shape (batch, nodes, 1) with identifiers and condition
    mask of shape (batch, nodes), and an output scaling that keeps the shape
    of what it scales, the score an apply call returns has shape
    (batch, nodes, 1): one scalar per node per batch element, the leading
    shape of the data.  It holds for [scalar_transformer_model]'s apply
    function and for the transformed [model] of
    [structured_transformer_model]. *)
Theorem score_has_the_shape_of_data a p i w w' out B N :
  shape (in_data i) = [B; N; 1] ->
  shape (in_data_id i) = [B; N] ->
  shape (in_condition_mask i) = [B; N] ->
  (forall t x, shape (scale_or_identity (tm_output_scale_fn a) t x) = shape x) ->
  scalar_apply a p i w = (w', Ok out) \/ structured_apply a p i w = (w', Ok out) ->
  shape out = [B; N; 1] /\ take 2 (shape out) = take 2 (shape (in_data i)).
Proof.
  intros Hd Hi Hm Hf Hrun.
  assert (shape out = [B; N; 1]) as Hs.
  { destruct Hrun as [Hrun|Hrun].
    - unfold scalar_apply, scalar_fns in Hrun. simpl in Hrun.
      destruct (scalar_model a i ApplyMode _) as [st r] eqn:E.
      injection Hrun as _ ->.
      exact (model_score_shape a i B N scalar_tokens
               (scalar_tokens_shape a i B N Hd Hi Hm) Hf _ _ _ E).
    - unfold structured_apply, structured_model_fns in Hrun. simpl in Hrun.
      destruct (structured_model a i ApplyMode _) as [st r] eqn:E.
      injection Hrun as _ ->.
      exact (model_score_shape a i B N structured_tokens
               (structured_tokens_shape a i B N Hd Hi Hm) Hf _ _ _ E). }
  split; [exact Hs|]. by rewrite Hs, Hd.
Qed.

(** C9. In each of the modes [concat], [add] and [none] the tokens handed
    to the transformer have width [token_dim + condition_token_dim], the
    two arguments of the factory: the tokenizer is built with width
    [token_dim] in mode [concat], where the gated token is appended, and
    with the full width in the two other modes. *)
Theorem tokens_enter_the_transformer_at_full_width a i B N st st' tokens time :
  condition_mode a = "concat" \/ condition_mode a = "add" \/
  condition_mode a = "none" ->
  shape (in_data i) = [B; N; 1] ->
  shape (in_data_id i) = [B; N] ->
  shape (in_condition_mask i) = [B; N] ->
  scalar_tokens a i ApplyMode st = (st', Ok (tokens, time)) \/
  structured_tokens a i ApplyMode st = (st', Ok (tokens, time)) ->
  shape tokens = [B; N; token_dim a + condition_token_dim a] /\
  fst (token_dims a) =
    (if String.eqb (condition_mode a) "concat" then token_dim a
     else token_dim a + condition_token_dim a).
Proof.
  intros Hmode Hd Hi Hm Hrun.
  destruct (entering_width_defined a Hmode) as [Hw Hfst].
  split; [|exact Hfst]. rewrite <- Hw.
  destruct Hrun as [Hrun|Hrun].
  - exact (scalar_tokens_shape a i B N Hd Hi Hm _ _ _ Hrun).
  - exact (structured_tokens_shape a i B N Hd Hi Hm _ _ _ Hrun).
Qed.

End ShapeClaims.

Lemma score_has_the_shape_of_data_witness :
  exists w' out,
    scalar_apply (EX := toy) (toy_args "concat")
      (toy_params (counting [1; 1; 1]) 3) (toy_input toy_mask) [] = (w', Ok out) /\
    shape out = [1; 2; 1] /\
    take 2 (shape out) = take 2 (shape (in_data (toy_input toy_mask))).
Proof.
  eexists _, _. split; [vm_compute; reflexivity|].
  eapply (score_has_the_shape_of_data (EX := toy) (CT := toy_contracts)
           (toy_args "concat") (toy_params (counting [1; 1; 1]) 3)
           (toy_input toy_mask) [] _ _ 1 2).
  - reflexivity.
  - reflexivity.
  - reflexivity.
  - intros t x. reflexivity.
  - left. vm_compute. reflexivity.
Defined.

Lemma tokens_enter_the_transformer_at_full_width_witness :
  exists st' tokens time,
    scalar_tokens (EX := toy) (toy_args "add") (toy_input toy_mask) ApplyMode
      (HkState (toy_params (counting [1; 1; 3]) 3) ∅ []) =
      (st', Ok (tokens, time)) /\
    shape tokens = [1; 2; 2 + 1] /\
    fst (token_dims (toy_args "add")) = 2 + 1.
Proof.
  eexists _, _, _. split; [vm_compute; reflexivity|].
  eapply (tokens_enter_the_transformer_at_full_width (EX := toy) (CT := toy_contracts)
           (toy_args "add") (toy_input toy_mask) 1 2
           (HkState (toy_params (counting [1; 1; 3]) 3) ∅ []) _ _ _).
  - right. left. reflexivity.
  - reflexivity.
  - reflexivity.
  - reflexivity.
  - left. vm_compute. reflexivity.
Defined.

Section ConditioningClaims.
Context {SC : Scalar} {EX : Externals}.

(** C4. Built with [condition_mode = "none"], the model merges nothing
    into the tokens: the conditioning block returns them as they are, no
    parameter of the top level (where the condition token lives) is read,
    and the condition mask counts only through its shape.  Two calls that
    differ in the values of the mask and in the top-level parameters end
    the same. *)
Theorem none_mode_takes_no_condition a p p' i mask w :
  condition_mode a = "none" ->
  shape mask = shape (in_condition_mask i) ->
  same_modules p p' ->
  (forall n m tokens, conditioning a n m tokens = mret tokens) /\
  scalar_apply a p i w = scalar_apply a p' (with_condition_mask mask i) w /\
  structured_apply a p i w = structured_apply a p' (with_condition_mask mask i) w.
Proof.
  intros Hmode Hshape Hp.
  assert (agree (fun _ _ => True) (HkState p ∅ w) (HkState p' ∅ w)) as Hst
    by (by repeat split).
  split; [intros n m tokens; by apply conditioning_none|]. split.
  - exact (simulates_apply _ (scalar_model a) (scalar_model a) _ _ _ _ w
             (sim_scalar_none _ a i mask Hmode Hshape) Hst).
  - exact (simulates_apply _ (structured_model a) (structured_model a) _ _ _ _ w
             (sim_structured_none _ a i mask Hmode Hshape) Hst).
Qed.

Context {CT : Contracts EX}.


(** C7 (amended).  When the guarded reshape raises, the handler prints the
    diagnostic and the [try] statement completes: nothing is raised again.
    The call goes on with the original tokens and ends as the call of the
    function without the statement does, but for the diagnostic. *)
Theorem reshape_failure_is_swallowed tokens n d e :
  reshape_infer tokens [n; d] = Raise e ->
  (forall mode st,
     guarded_reshape tokens n d mode st =
     (HkState (hk_params st) (hk_names st) (stdout st ++ [ErrorReshapingTokens e]),
      Ok tt)) /\
  (forall a p i w,
     snd (scalar_apply a p i w) = snd (scalar_apply_unguarded a p i w) /\
     other_diags (fst (scalar_apply a p i w)) =
     other_diags (fst (scalar_apply_unguarded a p i w))).
Proof.
  intros H. split.
  - intros mode st. by apply guarded_reshape_raise.
  - intros a p i w. apply scalar_apply_guard.
Qed.

(** C10.  The array the guarded reshape makes is used for nothing but the
    print of its shape: when the reshape succeeds, the [try] statement adds
    that one diagnostic and leaves the rest of the state alone, and the
    score the call returns is the score of the function without the
    statement, whose transformer and projection read the same [tokens]. *)
Theorem reshaped_tokens_are_unused tokens n d r :
  reshape_infer tokens [n; d] = Ok r ->
  (forall mode st,
     guarded_reshape tokens n d mode st =
     (HkState (hk_params st) (hk_names st)
        (stdout st ++ [ReshapedTokensShape (shape r)]), Ok tt)) /\
  (forall a i mode st,
     same_but_reshape_diags (scalar_model a i mode st)
                            (scalar_model_unguarded a i mode st)) /\
  (forall a p i w,
     snd (scalar_apply a p i w) = snd (scalar_apply_unguarded a p i w)).
Proof.
  intros H. split; [|split].
  - intros mode st. by apply guarded_reshape_ok.
  - intros a i mode st. apply scalar_model_guard.
  - intros a p i w. apply scalar_apply_guard.
Qed.

End ConditioningClaims.

Lemma toy_params_same_modules t1 t2 width :
  same_modules (toy_params t1 width) (toy_params t2 width).
Proof.
  intros name Hne. unfold toy_params.
  by rewrite !(lookup_insert_ne _ top_level) by (intros E; by rewrite E in Hne).
Qed.

Lemma none_mode_takes_no_condition_witness :
  scalar_apply (EX := toy) (toy_args "none") (toy_params (counting [1; 1; 1]) 3)
    (toy_input toy_mask) [] =
  scalar_apply (EX := toy) (toy_args "none") (toy_params (counting [1; 1; 3]) 3)
    (with_condition_mask toy_zero_mask (toy_input toy_mask)) [].
Proof.
  apply (none_mode_takes_no_condition (EX := toy) (toy_args "none")
           (toy_params (counting [1; 1; 1]) 3) (toy_params (counting [1; 1; 3]) 3)
           (toy_input toy_mask) toy_zero_mask []).
  - reflexivity.
  - reflexivity.
  - apply toy_params_same_modules.
Defined.






Lemma reshape_failure_is_swallowed_witness :
  guarded_reshape (EX := toy_flat) toy_data 2 2 ApplyMode (HkState ∅ ∅ []) =
  (HkState ∅ ∅ [ErrorReshapingTokens (ReshapeError [1; 2; 1] [2; 2])], Ok tt).
Proof.
  apply (proj1 (reshape_failure_is_swallowed (EX := toy_flat) toy_data 2 2
                  (ReshapeError [1; 2; 1] [2; 2]) eq_refl)
           ApplyMode (HkState ∅ ∅ [])).
Defined.

Lemma reshaped_tokens_are_unused_witness :
  guarded_reshape (EX := toy) (counting [1; 2; 2]) 2 2 ApplyMode (HkState ∅ ∅ []) =
  (HkState ∅ ∅ [ReshapedTokensShape [1; 2; 2]], Ok tt).
Proof.
  apply (proj1 (reshaped_tokens_are_unused (EX := toy) (counting [1; 2; 2]) 2 2
                  (counting [1; 2; 2]) eq_refl)
           ApplyMode (HkState ∅ ∅ [])).
Defined.

(** C7 as worded fails: with a tokenizer that returns tokens of another
    width than the one reshaped to, the guarded reshape raises, the
    diagnostic is printed, and the call returns a score all the same. *)
Lemma reshape_failure_does_not_propagate :
  scalar_apply (EX := toy_flat) (toy_args "concat") (toy_params (counting [1; 1; 1]) 2)
    (toy_input toy_mask) [] =
  ([ModelCalled [1; 2; 1] [1; 2] [1; 2];
    TokenizerCalled [1; 2] [1; 2; 1];
    TokensShapeBeforeReshaping [1; 2; 1];
    ErrorReshapingTokens (ReshapeError [1; 2; 1] [2; 2]);
    TimeEmbeddingShape [1; 3];
    ConditionedTokensShape [1; 2; 2];
    TransformerOutputShape [1; 2; 2];
    FinalOutputShape [1; 2; 1]],
   Ok (@Tensor Z_scalar [1; 2; 1] [28%Z; 44%Z])) /\
  ~ reshape_failure_propagates (EX := toy_flat) (toy_args "concat")
      (toy_params (counting [1; 1; 1]) 2) (toy_input toy_mask) [].
Proof.
  assert (scalar_apply (EX := toy_flat) (toy_args "concat")
            (toy_params (counting [1; 1; 1]) 2) (toy_input toy_mask) [] =
          ([ModelCalled [1; 2; 1] [1; 2] [1; 2];
            TokenizerCalled [1; 2] [1; 2; 1];
            TokensShapeBeforeReshaping [1; 2; 1];
            ErrorReshapingTokens (ReshapeError [1; 2; 1] [2; 2]);
            TimeEmbeddingShape [1; 3];
            ConditionedTokensShape [1; 2; 2];
            TransformerOutputShape [1; 2; 2];
            FinalOutputShape [1; 2; 1]],
           Ok (@Tensor Z_scalar [1; 2; 1] [28%Z; 44%Z]))) as Hrun
    by (vm_compute; reflexivity).
  split; [exact Hrun|].
  intros H. specialize (H (ReshapeError [1; 2; 1] [2; 2])).
  rewrite Hrun in H. simpl in H.
  discriminate H. do 3 right. by left.
Qed.

(** ** Runs of the small instance *)

(** The parameters [init] creates are those [apply] needs. *)
Example toy_init_then_apply :
  match snd (fst (scalar_fns (EX := toy) (toy_args "concat")) 0 (toy_input toy_mask) []) with
  | Ok p =>
      snd (scalar_apply (EX := toy) (toy_args "concat") p (toy_input toy_mask) []) =
      Ok (@Tensor Z_scalar [1; 2; 1] [106%Z; 206%Z])
  | Raise _ => False
  end.
Proof. vm_compute. reflexivity. Qed.

(** In mode [none], [init] creates nothing at the top level. *)
Example toy_none_mode_has_no_condition_token :
  match snd (fst (scalar_fns (EX := toy) (toy_args "none")) 0 (toy_input toy_mask) []) with
  | Ok p => condition_token_of p = None
  | Raise _ => False
  end.
Proof. vm_compute. reflexivity. Qed.

(** In mode [add] the mask selects where the condition token is added: the first node, whose
    mask is one, gets another score than under the mask of zeros; the
    second, whose mask is zero, the same. *)
Example toy_mask_selects_condition_token :
  snd (scalar_apply (EX := toy) (toy_args "add") (toy_params (counting [1; 1; 3]) 3)
         (toy_input toy_mask) []) =
    Ok (@Tensor Z_scalar [1; 2; 1] [312%Z; 576%Z]) /\
  snd (scalar_apply (EX := toy) (toy_args "add") (toy_params (counting [1; 1; 3]) 3)
         (toy_input toy_zero_mask) []) =
    Ok (@Tensor Z_scalar [1; 2; 1] [284%Z; 576%Z]).
Proof. split; vm_compute; reflexivity. Qed.

(** In mode [concat] under the mask of zeros the tokens are those of a
    narrower tokenizer with zeros appended, not those of the tokenizer of
    mode [none]: the two models give different scores on the same
    parameters. *)
Example toy_concat_is_not_none :
  snd (scalar_apply (EX := toy) (toy_args "concat") (toy_params (counting [1; 1; 1]) 3)
         (toy_input toy_zero_mask) []) <>
  snd (scalar_apply (EX := toy) (toy_args "none") (toy_params (counting [1; 1; 1]) 3)
         (toy_input toy_zero_mask) []).
Proof. vm_compute. discriminate. Qed.

(** In floating point, in mode [add] under the mask of zeros: a finite
    condition token leaves the scores numbers, the scores of the model
    without conditioning; an infinite entry makes each of them a NaN. *)
Example float_infinite_token_gives_nan :
  nan_entries (snd (scalar_apply (EX := float_toy) (float_args "add")
                      (float_params finite_token) float_input [])) = [false; false] /\
  nan_entries (snd (scalar_apply (EX := float_toy) (float_args "add")
                      (float_params infinite_token) float_input [])) = [true; true] /\
  nan_entries (snd (scalar_apply (EX := float_toy)
                      (with_condition_mode "none" (float_args "add"))
                      (float_params infinite_token) float_input [])) = [false; false].
Proof. repeat split; vm_compute; reflexivity. Qed.

(** * Further properties *)

(** ** More facts about arrays *)

Section MoreArrayFacts.
Context {SC : Scalar}.

Lemma unpack3_raise shp :
  length shp <> 3 -> unpack3 shp = Raise (UnpackError shp).
Proof. by destruct shp as [|a [|b [|c [|]]]]. Qed.

Lemma reshape_infer_raise (x : tensor) rest :
  size_of rest = 0 \/ size_of (shape x) mod size_of rest <> 0 ->
  reshape_infer x rest = Raise (ReshapeError (shape x) rest).
Proof.
  intros H. unfold reshape_infer.
  destruct (size_of rest =? 0)%nat eqn:E0; [done|].
  destruct (_ mod _ =? 0)%nat eqn:Em; [|done].
  apply Nat.eqb_neq in E0. apply Nat.eqb_eq in Em. by destruct H.
Qed.

Lemma reshape_infer_miscounted (x : tensor) N :
  size_of (shape x) mod N <> 0 ->
  reshape_infer x [N] = Raise (ReshapeError (shape x) [N]).
Proof.
  intros H. apply reshape_infer_raise. right. simpl. by rewrite Nat.mul_1_r.
Qed.

Lemma reshape_infer_counted (x : tensor) N :
  N <> 0 -> size_of (shape x) mod N = 0 ->
  reshape_infer x [N] = Ok (Tensor [size_of (shape x) / N; N] (data x)).
Proof.
  intros HN H. unfold reshape_infer. simpl. rewrite Nat.mul_1_r.
  destruct (N =? 0)%nat eqn:E0; [apply Nat.eqb_eq in E0; lia|].
  by rewrite H.
Qed.

(** Reshaping an array to its own trailing dimensions gives it back. *)
Lemma reshape_infer_own_shape (x : tensor) B N D :
  shape x = [B; N; D] -> N <> 0 -> D <> 0 ->
  reshape_infer x [N; D] = Ok x.
Proof.
  intros Hx HN HD. unfold reshape_infer. rewrite Hx. cbn [size_of foldr].
  destruct (N * (D * 1) =? 0)%nat eqn:E0; [apply Nat.eqb_eq in E0; lia|].
  rewrite Nat.Div0.mod_mul, Nat.eqb_refl, Nat.div_mul by lia.
  destruct x as [s d]. simpl in Hx. by subst s.
Qed.

Lemma broadcast_shapes_row B H : broadcast_shapes [B; H] [H] = Some [B; H].
Proof.
  unfold broadcast_shapes. simpl.
  by rewrite broadcast_dim_one_r, broadcast_dim_same.
Qed.

Lemma tensor_add_same_shape (x y z : tensor) :
  shape x = shape y -> tensor_add x y = Ok z -> shape z = shape x.
Proof.
  intros H Hz. apply binop_ok in Hz. rewrite <- H, broadcast_shapes_same in Hz.
  by injection Hz.
Qed.

End MoreArrayFacts.

(** ** Runs that differ in what they print *)

Section Alike.
Context {SC : Scalar} {EX : Externals}.

Lemma alike_bind {A B} (c1 c2 : Hk A) (k1 k2 : A -> Hk B) :
  alike c1 c2 -> (forall a, alike (k1 a) (k2 a)) -> alike (c1 ≫= k1) (c2 ≫= k2).
Proof.
  intros Hc Hk mode p n w1 w2. rewrite !bind_run.
  specialize (Hc mode p n w1 w2).
  destruct (c1 mode _) as [[p1 n1 v1] r1], (c2 mode _) as [[p2 n2 v2] r2].
  destruct Hc as (Hr & Hp & Hn). simpl in *. subst r2 p2 n2.
  destruct r1 as [a|e]; [apply Hk|done].
Qed.

Lemma alike_refl {A} (c : Hk A) : stdout_only c -> alike c c.
Proof.
  intros Hc mode p n w1 w2.
  destruct (Hc mode p n) as (p' & n' & d & r & H). by rewrite !H.
Qed.

Lemma alike_print_l {A} d (k : Hk A) c2 : alike k c2 -> alike (print d;; k) c2.
Proof. intros H mode p n w1 w2. rewrite bind_run. simpl. apply H. Qed.

Lemma alike_print_r {A} d (c1 : Hk A) k : alike c1 k -> alike c1 (print d;; k).
Proof. intros H mode p n w1 w2. rewrite bind_run. simpl. apply H. Qed.

Lemma alike_guard_l {A} tokens n d (k : Hk A) c2 :
  alike k c2 -> alike (guarded_reshape tokens n d;; k) c2.
Proof.
  intros H mode p nm w1 w2. rewrite bind_run.
  destruct (guarded_reshape_run tokens n d mode (HkState p nm w1)) as (g & _ & ->).
  simpl. apply H.
Qed.

Lemma alike_tokens a i : alike (scalar_tokens a i) (structured_tokens a i).
Proof.
  unfold scalar_tokens, structured_tokens. destruct (token_dims a) as [td cd].
  apply alike_print_l.
  apply alike_bind; [apply alike_refl, stdout_only_lift|]. intros [[b n] c].
  apply alike_print_r.
  apply alike_bind; [apply alike_refl, stdout_only_lift|]. intros ids.
  apply alike_bind; [apply alike_refl, stdout_only_lift|]. intros mask.
  apply alike_print_r.
  apply alike_bind; [apply alike_refl, stdout_only_new_module|]. intros tokenizer.
  apply alike_bind; [apply alike_refl, stdout_only_new_module|]. intros time_embeder.
  apply alike_print_l.
  apply alike_bind; [apply alike_refl, stdout_only_call_module|]. intros tokens.
  apply alike_print_l, alike_print_r, alike_guard_l.
  apply alike_refl.
  apply stdout_only_bind; [apply stdout_only_call_module|]. intros time.
  apply stdout_only_bind; [apply stdout_only_print|]. intros _.
  apply stdout_only_bind; [apply stdout_only_conditioning|]. intros out.
  apply stdout_only_bind; [apply stdout_only_print|]. intros _.
  apply stdout_only_ret.
Qed.

Lemma alike_models a i : alike (scalar_model a i) (structured_model a i).
Proof.
  unfold scalar_model, structured_model.
  apply alike_bind; [apply alike_tokens|]. intros [tokens time].
  apply alike_refl, stdout_only_forward_pass.
Qed.

End Alike.

(** ** From [init] to [apply] *)

Section Replay.
Context {SC : Scalar} {EX : Externals}.

Lemma params_within_refl p : params_within p p.
Proof. by split. Qed.

Lemma params_within_trans p q r :
  params_within p q -> params_within q r -> params_within p r.
Proof. intros [H1 H2] [H3 H4]. split; eauto. Qed.

Lemma replayable_bind_post {A B} (c : Hk A) (k : A -> Hk B) (P : A -> Prop) :
  (forall mode st st' a, c mode st = (st', Ok a) -> P a) ->
  replayable c -> (forall a, P a -> replayable (k a)) -> replayable (c ≫= k).
Proof.
  intros HP [Gc Rc] Hk. split.
  - intros key st st' r. rewrite bind_run.
    destruct (c (InitMode key) st) as [s1 [a|e]] eqn:E.
    + intros H. eapply params_within_trans; [eapply Gc, E|].
      eapply (proj1 (Hk a (HP _ _ _ _ E))), H.
    + intros [= <- _]. eapply Gc, E.
  - intros key si si' b q. rewrite !bind_run.
    destruct (c (InitMode key) si) as [s1 [a|e]] eqn:E; [|done].
    intros Hrun Hq. destruct (Hk a (HP _ _ _ _ E)) as [Gk Rk].
    rewrite (Rc key si s1 a q E).
    + exact (Rk key s1 si' b q Hrun Hq).
    + eapply params_within_trans; [eapply Gk, Hrun|exact Hq].
Qed.

Lemma replayable_bind {A B} (c : Hk A) (k : A -> Hk B) :
  replayable c -> (forall a, replayable (k a)) -> replayable (c ≫= k).
Proof.
  intros Hc Hk. apply (replayable_bind_post c k (fun _ => True)); auto.
Qed.

Lemma replayable_ret {A} (a : A) : replayable (mret a).
Proof.
  split.
  - intros key st st' r [= <- _]. apply params_within_refl.
  - by intros key si si' b q [= <- <-] _.
Qed.

Lemma replayable_lift {A} (r : result A) : replayable (lift r).
Proof.
  split.
  - intros key st st' r' [= <- _]. apply params_within_refl.
  - by intros key si si' b q [= <- ->] _.
Qed.

Lemma replayable_print d : replayable (print d).
Proof.
  split.
  - intros key st st' r' [= <- _]. apply params_within_refl.
  - by intros key si si' b q [= <- <-] _.
Qed.

Lemma replayable_new_module {I} (m : hk_module I) : replayable (new_module m).
Proof.
  split.
  - intros key st st' r' [= <- _]. apply params_within_refl.
  - by intros key si si' b q [= <- <-] _.
Qed.

Lemma replayable_guarded_reshape tokens n d : replayable (guarded_reshape tokens n d).
Proof.
  split.
  - intros key st st' r'.
    destruct (guarded_reshape_run tokens n d (InitMode key) st) as (g & _ & ->).
    intros [= <- _]. apply params_within_refl.
  - intros key si si' b q.
    destruct (guarded_reshape_run tokens n d (InitMode key) si) as (g & _ & Hi).
    rewrite Hi. intros [= <- <-] _.
    unfold guarded_reshape, try_except in *. rewrite bind_run in *.
    unfold lift in *. destruct (reshape_infer tokens [n; d]); simpl in *.
    + by injection Hi as <-.
    + by injection Hi as <-.
Qed.

Lemma replayable_call_module {I} (m : hk_module I) name i :
  name <> top_level -> replayable (call_module m name i).
Proof.
  intros Hname. split.
  - intros key st st' r. unfold call_module.
    destruct (hk_params st !! name) as [d|] eqn:E.
    + intros [= <- _]. apply params_within_refl.
    + destruct (module_init m (fold_in key name) i) as [d|e].
      * intros [= <- _]. simpl. split.
        -- intros nm d' Hnm Hd. destruct (decide (nm = name)) as [->|Hne].
           ++ congruence.
           ++ by rewrite lookup_insert_ne.
        -- intros nm v. unfold top_param. by rewrite lookup_insert_ne.
      * intros [= <- _]. apply params_within_refl.
  - intros key si si' a q. unfold call_module.
    destruct (hk_params si !! name) as [d|] eqn:E.
    + intros [= <- Ha] [Hq _]. simpl. rewrite (Hq name d Hname E). simpl.
      by rewrite Ha.
    + destruct (module_init m (fold_in key name) i) as [d|e]; [|done].
      intros [= <- Ha] [Hq _]. simpl in *.
      rewrite (Hq name d Hname) by (by rewrite lookup_insert_eq). simpl.
      by rewrite Ha.
Qed.

(** No module is named as the top level is. *)
Lemma new_module_name {I} (m : hk_module I) mode st st' name :
  class_name m <> top_level ->
  (forall n : nat, class_name m +:+ "_" +:+ pretty n <> top_level) ->
  new_module m mode st = (st', Ok name) -> name <> top_level.
Proof.
  intros H0 Hn. unfold new_module. intros [= _ <-].
  destruct (_ =? 0)%nat; [exact H0|apply Hn].
Qed.

Lemma replayable_call_new {I} (m : hk_module I) i :
  class_name m <> top_level ->
  (forall n : nat, class_name m +:+ "_" +:+ pretty n <> top_level) ->
  replayable (call_new m i).
Proof.
  intros H0 Hn. unfold call_new.
  apply (replayable_bind_post _ _ (fun name => name <> top_level)).
  - intros mode st st' name. by apply new_module_name.
  - apply replayable_new_module.
  - intros name Hname. by apply replayable_call_module.
Qed.

Lemma replayable_get_parameter name shp init :
  (forall key, shape (init key shp) = shp) ->
  replayable (get_parameter name shp init).
Proof.
  intros Hinit. split.
  - intros key st st' r. unfold get_parameter.
    destruct (hk_params st !! top_level ≫= _) as [v|] eqn:E.
    + case_decide; intros [= <- _]; apply params_within_refl.
    + intros [= <- _]. simpl. split.
      * intros nm d Hnm Hd. by rewrite lookup_insert_ne.
      * intros nm v. unfold top_param. rewrite lookup_insert_eq. simpl.
        destruct (decide (nm = name)) as [->|Hne].
        -- unfold top_param in E. rewrite E. done.
        -- rewrite lookup_insert_ne by done.
           destruct (hk_params st !! top_level); simpl; [done|].
           by rewrite lookup_empty.
  - intros key si si' a q. unfold get_parameter.
    destruct (hk_params si !! top_level ≫= _) as [v|] eqn:E.
    + case_decide as Hs; [|done]. intros [= <- <-] [_ Hq]. simpl.
      specialize (Hq name v E). unfold top_param in Hq. rewrite Hq.
      by rewrite decide_True.
    + intros [= <- <-] [_ Hq]. simpl in *.
      specialize (Hq name (init (fold_in key (top_level +:+ "/" +:+ name)) shp)).
      unfold top_param in Hq. rewrite lookup_insert_eq in Hq. simpl in Hq.
      rewrite lookup_insert_eq in Hq. rewrite (Hq eq_refl).
      by rewrite decide_True.
Qed.

Ltac replay_step :=
  first
    [ apply replayable_ret | apply replayable_lift | apply replayable_print
    | apply replayable_guarded_reshape
    | apply replayable_call_new; [done | intros ?; simpl; discriminate]
    | apply replayable_call_module; assumption
    | apply (replayable_bind_post _ _ (fun name => name <> top_level));
      [ intros ? ? ? ?; apply new_module_name; [done | intros ?; simpl; discriminate]
      | apply replayable_new_module
      | intros ? ? ]
    | apply replayable_bind; [|intros ?]
    | match goal with
      | |- replayable (match ?x with _ => _ end) => destruct x
      end ].

Lemma replayable_hidden_loop a n te h : replayable (hidden_loop a n te h).
Proof.
  revert h. induction n as [|n IH]; intros h; simpl; [apply replayable_ret|].
  repeat replay_step. apply IH.
Qed.

Lemma replayable_score_net a args : replayable (score_net a args).
Proof.
  destruct args as [[t x] context]. unfold score_net.
  repeat replay_step. apply replayable_hidden_loop.
Qed.

Lemma replayable_conditioning a n mask tokens :
  initializer_shapes -> replayable (conditioning a n mask tokens).
Proof.
  intros Hinit. unfold conditioning. destruct (token_dims a) as [td cd].
  destruct (negb _); [|apply replayable_ret].
  apply replayable_bind; [apply replayable_get_parameter; intros key; apply Hinit|].
  intros v. repeat replay_step.
Qed.

Lemma replayable_forward_pass a t tokens time edge :
  replayable (forward_pass a t tokens time edge).
Proof. unfold forward_pass. repeat replay_step. Qed.

Lemma replayable_scalar_model a i :
  initializer_shapes -> replayable (scalar_model a i).
Proof.
  intros Hinit. unfold scalar_model, scalar_tokens. destruct (token_dims a) as [td cd].
  repeat first [ apply (replayable_conditioning _ _ _ _ Hinit)
               | apply replayable_forward_pass | replay_step ].
Qed.

Lemma replayable_structured_model a i :
  initializer_shapes -> replayable (structured_model a i).
Proof.
  intros Hinit. unfold structured_model, structured_tokens.
  destruct (token_dims a) as [td cd].
  repeat first [ apply (replayable_conditioning _ _ _ _ Hinit)
               | apply replayable_forward_pass | replay_step ].
Qed.

(** What [init] returns is the parameters of the final state of a run
    from no parameters that returned. *)
Lemma init_run {I} (f : I -> Hk tensor) key i w w' p :
  fst (without_apply_rng (transform f)) key i w = (w', Ok p) ->
  exists st v, f i (InitMode key) (HkState ∅ ∅ w) = (st, Ok v) /\
               hk_params st = p /\ stdout st = w'.
Proof.
  simpl. destruct (f i (InitMode key) _) as [st [v|e]]; [|done].
  intros [= <- <-]. by exists st, v.
Qed.

Lemma transform_init_then_apply {I} (f : I -> Hk tensor) key i w w' p q :
  replayable (f i) -> params_within p q ->
  fst (without_apply_rng (transform f)) key i w = (w', Ok p) ->
  exists v, snd (without_apply_rng (transform f)) q i w = (w', Ok v).
Proof.
  intros [_ Hr] Hq Hrun. apply init_run in Hrun as (st & v & E & <- & <-).
  exists v. pose proof (Hr key _ _ _ q E Hq) as H. simpl in H. simpl.
  by rewrite H.
Qed.

End Replay.

(** ** Pre- and postconditions on the state *)

Section Triples.
Context {SC : Scalar} {EX : Externals}.

Lemma triple_bind {A B} mode P (c : Hk A) (k : A -> Hk B) Q1 Q R :
  triple mode P c Q1 R -> (forall a, triple mode (Q1 a) (k a) Q R) ->
  triple mode P (c ≫= k) Q R.
Proof.
  intros Hc Hk st HP. rewrite bind_run. specialize (Hc st HP).
  destruct (c mode st) as [s1 [a|e]]; [by apply Hk|done].
Qed.

Lemma triple_weaken {A} mode (P P' : hk_state -> Prop) (c : Hk A)
    (Q Q' : A -> hk_state -> Prop) (R R' : hk_state -> Prop) :
  triple mode P' c Q' R' -> (forall st, P st -> P' st) ->
  (forall a st, Q' a st -> Q a st) -> (forall st, R' st -> R st) ->
  triple mode P c Q R.
Proof.
  intros H HP HQ HR st Hst. specialize (H st (HP st Hst)).
  destruct (c mode st) as [s [a|e]]; auto.
Qed.

Lemma triple_true {A} mode (c : Hk A) P :
  triple mode P c (fun _ _ => True) (fun _ => True).
Proof. intros st _. by destruct (c mode st) as [s [a|e]]. Qed.

Lemma reads_params_lift {A} (r : result A) : reads_params (lift r).
Proof. done. Qed.

Lemma reads_params_print d : reads_params (print d).
Proof. done. Qed.

Lemma reads_params_new_module {I} (m : hk_module I) : reads_params (new_module m).
Proof. done. Qed.

Lemma reads_params_call_module {I} (m : hk_module I) name i :
  reads_params (call_module m name i).
Proof. intros st. unfold call_module. by destruct (hk_params st !! name). Qed.

Lemma reads_params_guarded_reshape tokens n d :
  reads_params (guarded_reshape tokens n d).
Proof.
  intros st. by destruct (guarded_reshape_run tokens n d ApplyMode st) as (g & _ & ->).
Qed.

Lemma triple_reads {A} (c : Hk A) (J : gmap string (gmap string tensor) -> Prop) :
  reads_params c ->
  triple ApplyMode (on_params J) c (fun _ => on_params J) (on_params J).
Proof.
  intros Hc st HJ. specialize (Hc st). unfold on_params in *.
  destruct (c ApplyMode st) as [s [a|e]]; simpl in Hc; by rewrite Hc.
Qed.

(** *** Without the condition token *)

Lemma conditioning_without_token a n mask tokens st :
  condition_mode a <> "none" -> cond_token st = None ->
  conditioning a n mask tokens ApplyMode st =
  (st, Raise (MissingParameter top_level "condition_token")).
Proof.
  intros Hmode Hc. unfold conditioning. destruct (token_dims a) as [td cd].
  destruct (String.eqb_spec (condition_mode a) "none") as [E|_]; [done|]. simpl.
  rewrite bind_run. unfold get_parameter. unfold cond_token in Hc. by rewrite Hc.
Qed.

Ltac keep_prim :=
  eapply triple_weaken;
  [ apply (triple_reads _ no_token);
    first [ apply reads_params_lift | apply reads_params_print
          | apply reads_params_new_module | apply reads_params_call_module
          | apply reads_params_guarded_reshape ]
  | done | intros ? ? H; exact H | done ].

Tactic Notation "keep_step" "as" simple_intropattern(x) :=
  eapply triple_bind; [ keep_prim | intros x ].

Lemma scalar_tokens_without_token a i :
  condition_mode a <> "none" ->
  triple ApplyMode (on_params no_token) (scalar_tokens a i)
    (fun _ _ => False) (fun _ => True).
Proof.
  intros Hmode. unfold scalar_tokens. destruct (token_dims a) as [td cd] eqn:Hd.
  keep_step as ?. keep_step as [[b n] c].
  keep_step as ids. keep_step as mask. keep_step as tokenizer.
  keep_step as time_embeder. keep_step as ?. keep_step as tokens.
  keep_step as ?. keep_step as ?. keep_step as time. keep_step as ?.
  eapply triple_bind with (Q1 := fun _ _ => False).
  - intros st Hst.
    by rewrite (conditioning_without_token a n mask tokens st Hmode Hst).
  - intros tok st [].
Qed.

Lemma structured_tokens_without_token a i :
  condition_mode a <> "none" ->
  triple ApplyMode (on_params no_token) (structured_tokens a i)
    (fun _ _ => False) (fun _ => True).
Proof.
  intros Hmode. unfold structured_tokens. destruct (token_dims a) as [td cd] eqn:Hd.
  keep_step as [[b n] c]. keep_step as ?.
  keep_step as ids. keep_step as mask. keep_step as ?. keep_step as tokenizer.
  keep_step as time_embeder. keep_step as tokens.
  keep_step as ?. keep_step as time. keep_step as ?.
  eapply triple_bind with (Q1 := fun _ _ => False).
  - intros st Hst.
    by rewrite (conditioning_without_token a n mask tokens st Hmode Hst).
  - intros tok st [].
Qed.

Lemma apply_without_token a p i w :
  condition_mode a <> "none" -> condition_token_of p = None ->
  (exists e, snd (scalar_apply a p i w) = Raise e) /\
  (exists e, snd (structured_apply a p i w) = Raise e).
Proof.
  intros Hmode Hp. split.
  - pose proof (scalar_tokens_without_token a i Hmode (HkState p ∅ w) Hp) as H.
    unfold scalar_apply, scalar_fns, without_apply_rng, transform. cbn [fst snd].
    unfold scalar_model. rewrite bind_run.
    destruct (scalar_tokens a i ApplyMode _) as [s [x|e]]; [done|]. by exists e.
  - pose proof (structured_tokens_without_token a i Hmode (HkState p ∅ w) Hp) as H.
    unfold structured_apply, structured_model_fns, without_apply_rng, transform.
    cbn [fst snd]. unfold structured_model. rewrite bind_run.
    destruct (structured_tokens a i ApplyMode _) as [s [x|e]]; [done|]. by exists e.
Qed.

End Triples.

(** ** The top-level parameters *)

Section TopLevel.
Context {SC : Scalar} {EX : Externals}.

Lemma keeps_top_ret {A} (a : A) : keeps_top (mret a).
Proof. done. Qed.

Lemma keeps_top_lift {A} (r : result A) : keeps_top (lift r).
Proof. done. Qed.

Lemma keeps_top_print d : keeps_top (print d).
Proof. done. Qed.

Lemma keeps_top_new_module {I} (m : hk_module I) : keeps_top (new_module m).
Proof. done. Qed.

Lemma keeps_top_guarded_reshape tokens n d : keeps_top (guarded_reshape tokens n d).
Proof.
  intros mode st. by destruct (guarded_reshape_run tokens n d mode st) as (g & _ & ->).
Qed.

Lemma keeps_top_call_module {I} (m : hk_module I) name i :
  name <> top_level -> keeps_top (call_module m name i).
Proof.
  intros Hname mode st. unfold call_module.
  destruct mode as [key|], (hk_params st !! name); try done.
  destruct (module_init m _ i); [|done]. simpl. by rewrite lookup_insert_ne.
Qed.

Lemma keeps_top_bind_post {A B} (c : Hk A) (k : A -> Hk B) (P : A -> Prop) :
  (forall mode st st' a, c mode st = (st', Ok a) -> P a) ->
  keeps_top c -> (forall a, P a -> keeps_top (k a)) -> keeps_top (c ≫= k).
Proof.
  intros HP Hc Hk mode st. rewrite bind_run. specialize (Hc mode st).
  destruct (c mode st) as [s [a|e]] eqn:E; [|done]. simpl in Hc. rewrite <- Hc.
  eapply Hk, HP, E.
Qed.

Lemma keeps_top_bind {A B} (c : Hk A) (k : A -> Hk B) :
  keeps_top c -> (forall a, keeps_top (k a)) -> keeps_top (c ≫= k).
Proof. intros Hc Hk. apply (keeps_top_bind_post c k (fun _ => True)); auto. Qed.

Lemma keeps_top_call_new {I} (m : hk_module I) i :
  class_name m <> top_level ->
  (forall n : nat, class_name m +:+ "_" +:+ pretty n <> top_level) ->
  keeps_top (call_new m i).
Proof.
  intros H0 Hn. unfold call_new.
  apply (keeps_top_bind_post _ _ (fun name => name <> top_level)).
  - intros mode st st' name. by apply new_module_name.
  - apply keeps_top_new_module.
  - intros name Hname. by apply keeps_top_call_module.
Qed.

Ltac keeps_top_step :=
  first
    [ apply keeps_top_ret | apply keeps_top_lift | apply keeps_top_print
    | apply keeps_top_guarded_reshape
    | apply keeps_top_call_new; [done | intros ?; simpl; discriminate]
    | apply keeps_top_call_module; assumption
    | apply (keeps_top_bind_post _ _ (fun name => name <> top_level));
      [ intros ? ? ? ?; apply new_module_name; [done | intros ?; simpl; discriminate]
      | apply keeps_top_new_module
      | intros ? ? ]
    | apply keeps_top_bind; [|intros ?]
    | match goal with
      | |- keeps_top (match ?x with _ => _ end) => destruct x
      end ].

Lemma keeps_top_forward_pass a t tokens time edge :
  keeps_top (forward_pass a t tokens time edge).
Proof. unfold forward_pass. repeat keeps_top_step. Qed.

Lemma keeps_top_hidden_loop a n te h : keeps_top (hidden_loop a n te h).
Proof.
  revert h. induction n as [|n IH]; intros h; simpl; [apply keeps_top_ret|].
  repeat keeps_top_step. apply IH.
Qed.

Lemma keeps_top_score_net a args : keeps_top (score_net a args).
Proof.
  destruct args as [[t x] context]. unfold score_net.
  repeat keeps_top_step. apply keeps_top_hidden_loop.
Qed.

Lemma conditioning_mode_none a n mask tokens :
  condition_mode a = "none" -> conditioning a n mask tokens = mret tokens.
Proof.
  intros E. unfold conditioning. destruct (token_dims a). by rewrite E.
Qed.

Lemma keeps_top_scalar_model a i :
  condition_mode a = "none" -> keeps_top (scalar_model a i).
Proof.
  intros Hm. unfold scalar_model, scalar_tokens. destruct (token_dims a) as [td cd].
  repeat first [ rewrite (conditioning_mode_none a) by done
               | apply keeps_top_forward_pass | keeps_top_step ].
Qed.

Lemma keeps_top_structured_model a i :
  condition_mode a = "none" -> keeps_top (structured_model a i).
Proof.
  intros Hm. unfold structured_model, structured_tokens.
  destruct (token_dims a) as [td cd].
  repeat first [ rewrite (conditioning_mode_none a) by done
               | apply keeps_top_forward_pass | keeps_top_step ].
Qed.

Lemma triple_keeps_top {A} mode (c : Hk A) F :
  keeps_top c -> triple mode (on_top F) c (fun _ => on_top F) (on_top F).
Proof.
  intros Hc st HF. specialize (Hc mode st). unfold on_top in *.
  destruct (c mode st) as [s [a|e]]; simpl in Hc; by rewrite Hc.
Qed.

Lemma conditioning_has_token mode a n mask tokens P :
  initializer_shapes -> condition_mode a <> "none" ->
  triple mode P (conditioning a n mask tokens)
    (fun _ => on_top (token_of_width (snd (token_dims a)))) (fun _ => True).
Proof.
  intros Hinit Hmode. unfold conditioning. destruct (token_dims a) as [td cd]. simpl.
  destruct (String.eqb_spec (condition_mode a) "none") as [E|_]; [done|]. simpl.
  eapply triple_bind with (Q1 := fun _ => on_top (token_of_width cd)).
  - intros st _. unfold get_parameter.
    destruct (hk_params st !! top_level ≫= _) as [v|] eqn:E.
    + case_decide as Hs; [|done]. by exists v.
    + destruct mode as [key|]; [|done].
      unfold on_top, token_of_width. simpl. rewrite lookup_insert_eq. simpl.
      rewrite lookup_insert_eq. eexists. split; [done|]. apply Hinit.
  - intros v. eapply triple_weaken;
      [apply (triple_keeps_top mode _ (token_of_width cd))|done|by intros ? ? H|done].
    repeat keeps_top_step.
Qed.

Ltac destruct_pairs :=
  repeat match goal with x : (_ * _)%type |- _ => destruct x end.

Ltac skip_step :=
  eapply triple_bind with (Q1 := fun _ _ => True); [apply triple_true|intros ?].

Lemma scalar_model_has_token mode a i :
  initializer_shapes -> condition_mode a <> "none" ->
  triple mode (fun _ => True) (scalar_model a i)
    (fun _ => on_top (token_of_width (snd (token_dims a)))) (fun _ => True).
Proof.
  intros Hinit Hmode. unfold scalar_model.
  eapply triple_bind with (Q1 := fun _ => on_top (token_of_width (snd (token_dims a)))).
  - pose proof (conditioning_has_token mode a) as Hc.
    unfold scalar_tokens. destruct (token_dims a) as [td cd]. simpl in *.
    do 2 skip_step. destruct_pairs. do 10 skip_step.
    eapply triple_bind; [by apply Hc|]. intros tok.
    eapply triple_weaken;
      [apply (triple_keeps_top mode _ (token_of_width cd))|done|by intros ? ? H|done].
    repeat keeps_top_step.
  - intros [tokens time].
    eapply triple_weaken;
      [apply (triple_keeps_top mode _ (token_of_width (snd (token_dims a))))
      |done|by intros ? ? H|done].
    apply keeps_top_forward_pass.
Qed.

Lemma structured_model_has_token mode a i :
  initializer_shapes -> condition_mode a <> "none" ->
  triple mode (fun _ => True) (structured_model a i)
    (fun _ => on_top (token_of_width (snd (token_dims a)))) (fun _ => True).
Proof.
  intros Hinit Hmode. unfold structured_model.
  eapply triple_bind with (Q1 := fun _ => on_top (token_of_width (snd (token_dims a)))).
  - pose proof (conditioning_has_token mode a) as Hc.
    unfold structured_tokens. destruct (token_dims a) as [td cd]. simpl in *.
    skip_step. destruct_pairs. do 10 skip_step.
    eapply triple_bind; [by apply Hc|]. intros tok.
    eapply triple_weaken;
      [apply (triple_keeps_top mode _ (token_of_width cd))|done|by intros ? ? H|done].
    repeat keeps_top_step.
  - intros [tokens time].
    eapply triple_weaken;
      [apply (triple_keeps_top mode _ (token_of_width (snd (token_dims a))))
      |done|by intros ? ? H|done].
    apply keeps_top_forward_pass.
Qed.

(** In mode [none], [init] leaves the top level empty. *)
Lemma init_none_no_top a key i w w' p :
  condition_mode a = "none" ->
  fst (scalar_fns a) key i w = (w', Ok p) \/
  fst (structured_model_fns a) key i w = (w', Ok p) ->
  p !! top_level = None.
Proof.
  intros Hm [H|H]; apply init_run in H as (st & v & Hrun & <- & _).
  - pose proof (keeps_top_scalar_model a i Hm (InitMode key) (HkState ∅ ∅ w)) as Hk.
    rewrite Hrun in Hk. simpl in Hk. by rewrite Hk.
  - pose proof (keeps_top_structured_model a i Hm (InitMode key) (HkState ∅ ∅ w)) as Hk.
    rewrite Hrun in Hk. simpl in Hk. by rewrite Hk.
Qed.

End TopLevel.

(** ** What the handler of the [try] statement prints *)

Section Silence.
Context {SC : Scalar} {EX : Externals}.

Lemma silent_lift {A} (r : result A) : silent (lift r).
Proof. done. Qed.

Lemma silent_ret {A} (a : A) : silent (mret a).
Proof. done. Qed.

Lemma silent_new_module {I} (m : hk_module I) : silent (new_module m).
Proof. done. Qed.

Lemma silent_call_module {I} (m : hk_module I) name i : silent (call_module m name i).
Proof.
  intros mode st. unfold call_module.
  destruct mode as [key|], (hk_params st !! name); try done.
  by destruct (module_init m _ i).
Qed.

Lemma silent_get_parameter name shp init : silent (get_parameter name shp init).
Proof.
  intros mode st. unfold get_parameter.
  destruct (hk_params st !! top_level ≫= _); [by case_decide|by destruct mode].
Qed.

Lemma silent_bind {A B} (c : Hk A) (k : A -> Hk B) :
  silent c -> (forall a, silent (k a)) -> silent (c ≫= k).
Proof.
  intros Hc Hk mode st. rewrite bind_run. specialize (Hc mode st).
  destruct (c mode st) as [s [a|e]]; [|done]. simpl in Hc. rewrite <- Hc. apply Hk.
Qed.

Lemma silent_call_new {I} (m : hk_module I) i : silent (call_new m i).
Proof.
  apply silent_bind; [apply silent_new_module|]. intros n. apply silent_call_module.
Qed.

Lemma clean_run_bind {A B} mode (c : Hk A) (k : A -> Hk B) (F : A -> Prop) G :
  clean_run mode c F -> (forall a, F a -> clean_run mode (k a) G) ->
  clean_run mode (c ≫= k) G.
Proof.
  intros Hc Hk st Hst. rewrite bind_run. destruct (Hc st Hst) as [H1 H2].
  destruct (c mode st) as [s [a|e]]; simpl in *; [|by split].
  by apply Hk; [apply H2|].
Qed.

Lemma clean_run_silent {A} mode (c : Hk A) (F : A -> Prop) :
  silent c -> ensures mode c F -> clean_run mode c F.
Proof.
  intros Hs Hf st Hst. rewrite (Hs mode st). split; [done|].
  intros a Ha. destruct (c mode st) as [s r] eqn:E. simpl in Ha. subst r.
  by eapply Hf.
Qed.

Lemma clean_run_print mode d :
  reshape_error d = false -> clean_run mode (print d) (fun _ => True).
Proof.
  intros Hd st Hst. simpl. split; [|done].
  apply Forall_app. split; [done|]. by constructor.
Qed.

Ltac clean_tac :=
  repeat first
    [ apply clean_run_print; reflexivity
    | apply clean_run_silent; [|apply ensures_true];
      first [ apply silent_lift | apply silent_ret | apply silent_new_module
            | apply silent_call_module | apply silent_get_parameter
            | apply silent_call_new ]
    | eapply clean_run_bind with (F := fun _ => True); [|intros ? _]
    | match goal with
      | |- clean_run _ (match ?x with _ => _ end) _ => destruct x
      end ].

Lemma clean_run_conditioning mode a n mask tokens :
  clean_run mode (conditioning a n mask tokens) (fun _ => True).
Proof. unfold conditioning. clean_tac. Qed.

Lemma clean_run_forward_pass mode a t tokens time edge :
  clean_run mode (forward_pass a t tokens time edge) (fun _ => True).
Proof. unfold forward_pass. clean_tac. Qed.

Lemma clean_run_guarded_reshape mode (tokens : tensor) B N D :
  shape tokens = [B; N; D] -> N <> 0 -> D <> 0 ->
  clean_run mode (guarded_reshape tokens N D) (fun _ => True).
Proof.
  intros Hs HN HD st Hst.
  rewrite (guarded_reshape_ok tokens N D tokens mode st)
    by (by apply (reshape_infer_own_shape _ B)).
  simpl. split; [|done]. apply Forall_app. split; [done|]. by constructor.
Qed.

Ltac clean_step :=
  eapply clean_run_bind with (F := fun _ => True);
    [first [ apply clean_run_print; reflexivity
           | apply clean_run_silent; [|apply ensures_true];
             first [ apply silent_lift | apply silent_new_module
                   | apply silent_call_module ] ]
    |intros ? _].

Lemma clean_run_scalar_model {CT : Contracts EX} mode a i :
  fst (token_dims a) <> 0 ->
  clean_run mode (scalar_model a i) (fun _ => True).
Proof.
  intros Htd. unfold scalar_model, scalar_tokens.
  destruct (token_dims a) as [td cd]. simpl in Htd.
  eapply clean_run_bind with (F := fun _ => True);
    [|intros [tokens time] _; apply clean_run_forward_pass].
  clean_step.
  eapply clean_run_bind with (F := fun _ => True);
    [apply clean_run_silent; [apply silent_lift|apply ensures_true]|].
  intros [[b n] c] _.
  eapply clean_run_bind.
  { apply clean_run_silent; [apply silent_lift|].
    apply ensures_lift. intros x Hx. exact (reshape_infer_ok _ _ _ Hx). }
  intros ids (Hids & _ & HN). cbn [size_of foldr] in Hids, HN.
  do 4 clean_step.
  eapply clean_run_bind.
  { apply clean_run_silent; [apply silent_call_module|].
    apply ensures_call_module. intros p tok Htok.
    apply tokenizer_tokens in Htok as [Htok _]. exact Htok. }
  intros tokens Htok. rewrite Hids in Htok.
  clean_step.
  eapply clean_run_bind;
    [eapply (clean_run_guarded_reshape mode tokens _ n td); [exact Htok|lia|done]|].
  intros ? _.
  do 2 clean_step.
  eapply clean_run_bind; [apply clean_run_conditioning|]. intros ? _.
  clean_step.
  apply clean_run_silent; [apply silent_ret|apply ensures_true].
Qed.

End Silence.

(** ** The shape of the MLP's score *)

Section MlpShapes.
Context {SC : Scalar} {EX : Externals}.

Lemma layer_norm_call_shape p (x y : tensor) B H :
  keeps_shape normalize_last ->
  shape x = [B; H] -> layer_norm_call p x = Ok y -> shape y = [B; H].
Proof.
  intros Hn Hx. unfold layer_norm_call. rewrite Hx. simpl.
  destruct (lookup_param _ "scale" _ _) as [s|] eqn:Es; [|done]. simpl.
  destruct (lookup_param _ "offset" _ _) as [o|] eqn:Eo; [|done]. simpl.
  assert (forall nm v, lookup_param "layer_norm" nm [H] p = Ok v -> shape v = [H]) as Hl.
  { intros nm v. unfold lookup_param. destruct (p !! nm); [|done].
    case_decide; [|done]. by intros [= <-]. }
  apply Hl in Es, Eo.
  destruct (tensor_mul _ s) as [m|] eqn:Em; [|done]. simpl.
  apply binop_ok in Em. rewrite Hn, Hx, Es, broadcast_shapes_row in Em.
  injection Em as Em. intros Hy. apply binop_ok in Hy.
  rewrite <- Em, Eo, broadcast_shapes_row in Hy. by injection Hy.
Qed.

Lemma hidden_loop_shape a n te h B mode :
  mlp_contracts -> keeps_shape (activation a) ->
  shape te = [B; hidden_dim a] -> shape h = [B; hidden_dim a] ->
  ensures mode (hidden_loop a n te h) (fun out => shape out = [B; hidden_dim a]).
Proof.
  intros [_ Hn] Ha Hte. revert h. induction n as [|n IH]; intros h Hh; simpl.
  { by apply ensures_ret. }
  eapply ensures_bind.
  { eapply ensures_bind; [apply ensures_true|]. intros nm _.
    apply ensures_call_module. intros p out Hout.
    exact (linear_call_ok _ _ _ _ [B] _ Hh Hout). }
  intros l Hl. simpl in Hl.
  eapply ensures_bind.
  { apply ensures_lift. intros s Hs.
    exact (eq_trans (tensor_add_same_shape _ _ _ (eq_trans Hl (eq_sym Hte)) Hs) Hl). }
  intros s Hs. simpl in Hs.
  eapply ensures_bind with (P := fun x => shape x = [B; hidden_dim a]).
  { destruct (layer_norm a).
    - eapply ensures_bind; [apply ensures_true|]. intros nm _.
      apply ensures_call_module. intros p out Hout.
      eapply (layer_norm_call_shape p _ out B _ Hn); [|exact Hout].
      by rewrite Ha.
    - apply ensures_ret. by rewrite Ha. }
  intros x Hx. by apply IH.
Qed.

Lemma score_net_shape a t x context B D C mode :
  mlp_contracts -> keeps_shape (activation a) ->
  (forall t x, shape (scale_or_identity (output_scale_fn a) t x) = shape x) ->
  shape t = [B] -> shape x = [B; D] -> shape context = [B; C] ->
  ensures mode (score_net a (t, x, context))
    (fun out => shape out = [B; output_dim a]).
Proof.
  intros Hc Ha Hf Ht Hx Hctx. unfold score_net.
  eapply ensures_bind.
  { apply ensures_lift. intros y Hy.
    exact (concatenate_last_ok _ _ _ [B] D C Hx Hctx Hy). }
  intros y Hy. simpl in Hy.
  eapply ensures_bind.
  { eapply ensures_bind; [apply ensures_true|]. intros nm _.
    apply ensures_call_module. intros p e He.
    apply (proj1 Hc) in He. simpl in He. rewrite Ht in He.
    rewrite drop_last_app in He. exact He. }
  intros te Hte. simpl in Hte.
  eapply ensures_bind.
  { eapply ensures_bind; [apply ensures_true|]. intros nm _.
    apply ensures_call_module. intros p out Hout.
    exact (linear_call_ok _ _ _ _ [B] _ Hy Hout). }
  intros l Hl. simpl in Hl.
  eapply ensures_bind.
  { apply ensures_lift. intros s Hs.
    exact (eq_trans (tensor_add_same_shape _ _ _ (eq_trans Hl (eq_sym Hte)) Hs) Hl). }
  intros s Hs. simpl in Hs.
  eapply ensures_bind.
  { apply (hidden_loop_shape a _ te _ B mode Hc Ha Hte). by rewrite Ha. }
  intros h Hh. simpl in Hh.
  eapply ensures_bind.
  { eapply ensures_bind; [apply ensures_true|]. intros nm _.
    apply ensures_call_module. intros p out Hout.
    exact (linear_call_ok _ _ _ _ [B] _ Hh Hout). }
  intros out Hout. simpl in Hout. apply ensures_ret. by rewrite Hf.
Qed.

End MlpShapes.

(** ** An unrecognised [condition_mode] *)

Section Unrecognised.
Context {SC : Scalar} {EX : Externals}.

Lemma unrecognised_entering_width a :
  unrecognised_mode a ->
  entering_width a = token_dim a /\ token_dims a = (token_dim a, condition_token_dim a).
Proof.
  intros (Hc & Ha & Hn). unfold entering_width, token_dims.
  apply String.eqb_neq in Hc, Ha, Hn. by rewrite Hc, Ha, Hn.
Qed.

Lemma conditioning_unrecognised a n mask tokens mode :
  condition_mode a <> "concat" -> condition_mode a <> "add" ->
  ensures mode (conditioning a n mask tokens) (fun out => out = tokens).
Proof.
  intros Hc Ha. apply String.eqb_neq in Hc, Ha.
  unfold conditioning. destruct (token_dims a) as [td cd]. rewrite Hc, Ha.
  destruct (negb _); [|by apply ensures_ret].
  eapply ensures_bind; [apply ensures_true|]. intros v _.
  eapply ensures_bind; [apply ensures_true|]. intros m _.
  eapply ensures_bind; [apply ensures_true|]. intros g _.
  by apply ensures_ret.
Qed.

End Unrecognised.

(** ** Properties of the models *)

Section ModelProperties.
Context {SC : Scalar} {EX : Externals}.

(** X1. The [model] of [structured_transformer_model] is the [model] of
    [scalar_transformer_model] but for what it prints: from the same
    parameters and module names the two end with the same value or
    exception, the same parameters and the same names, so [init] creates
    the same parameters and [apply] gives the same score. *)
Theorem structured_model_is_scalar_model a i :
  alike (scalar_model a i) (structured_model a i) /\
  (forall key w, snd (fst (scalar_fns a) key i w) =
                 snd (fst (structured_model_fns a) key i w)) /\
  (forall p w, snd (scalar_apply a p i w) = snd (structured_apply a p i w)).
Proof.
  pose proof (alike_models a i) as H. split; [exact H|]. split.
  - intros key w. destruct (H (InitMode key) ∅ ∅ w w) as (Hr & Hp & _).
    unfold scalar_fns, structured_model_fns. simpl.
    destruct (scalar_model a i (InitMode key) _) as [s1 r1],
             (structured_model a i (InitMode key) _) as [s2 r2].
    simpl in *. by rewrite Hr, Hp.
  - intros p w. destruct (H ApplyMode p ∅ w w) as (Hr & _ & _).
    unfold scalar_apply, structured_apply, scalar_fns, structured_model_fns. simpl.
    by destruct (scalar_model a i ApplyMode _), (structured_model a i ApplyMode _).
Qed.

(** X2. The parameters [init] returns are those [apply] needs: on the
    input [init] was run on, [apply] returns a score and prints what
    [init] printed, also when the parameters hold more than [init]
    created. *)
Theorem init_parameters_apply a key i w w' p q :
  initializer_shapes -> params_within p q ->
  (fst (scalar_fns a) key i w = (w', Ok p) ->
   exists v, scalar_apply a q i w = (w', Ok v)) /\
  (fst (structured_model_fns a) key i w = (w', Ok p) ->
   exists v, structured_apply a q i w = (w', Ok v)).
Proof.
  intros Hinit Hq. split; intros Hrun.
  - exact (transform_init_then_apply (scalar_model a) key i w w' p q
             (replayable_scalar_model a i Hinit) Hq Hrun).
  - exact (transform_init_then_apply (structured_model a) key i w w' p q
             (replayable_structured_model a i Hinit) Hq Hrun).
Qed.

(** X3. The same for the MLP of [conditional_mlp], which has no
    parameter of its own at the top level. *)
Theorem mlp_init_parameters_apply a key args w w' p q :
  params_within p q ->
  fst (mlp_fns a) key args w = (w', Ok p) ->
  exists v, mlp_apply a q args w = (w', Ok v).
Proof.
  intros Hq Hrun.
  exact (transform_init_then_apply (score_net a) key args w w' p q
           (replayable_score_net a args) Hq Hrun).
Qed.

(** X4. For a batch of [B] times, [B] rows of data and [B] rows of
    context, the score of the MLP has [B] rows of [output_dim] entries,
    when the activation and [output_scale_fn] keep shapes. *)
Theorem mlp_score_shape a p t x context w w' out B D C :
  mlp_contracts -> keeps_shape (activation a) ->
  (forall t x, shape (scale_or_identity (output_scale_fn a) t x) = shape x) ->
  shape t = [B] -> shape x = [B; D] -> shape context = [B; C] ->
  mlp_apply a p (t, x, context) w = (w', Ok out) ->
  shape out = [B; output_dim a].
Proof.
  intros Hc Ha Hf Ht Hx Hctx Hrun.
  unfold mlp_apply, mlp_fns, without_apply_rng, transform in Hrun.
  cbn [fst snd] in Hrun.
  destruct (score_net a (t, x, context) ApplyMode _) as [st r] eqn:E.
  injection Hrun as _ ->.
  exact (score_net_shape a t x context B D C ApplyMode Hc Ha Hf Ht Hx Hctx _ _ _ E).
Qed.

(** X5. With [num_hidden] zero or one the loop of [score_net] does not
    run: the two values give the same network, and [layer_norm] is not
    read. *)
Theorem shallow_mlp_ignores_layer_norm a n1 n2 norm1 norm2 key p args w :
  n1 <= 1 -> n2 <= 1 ->
  fst (mlp_fns (mlp_with_depth n1 norm1 a)) key args w =
  fst (mlp_fns (mlp_with_depth n2 norm2 a)) key args w /\
  mlp_apply (mlp_with_depth n1 norm1 a) p args w =
  mlp_apply (mlp_with_depth n2 norm2 a) p args w.
Proof.
  intros H1 H2.
  assert (score_net (mlp_with_depth n1 norm1 a) args =
          score_net (mlp_with_depth n2 norm2 a) args) as E.
  { destruct args as [[t x] context]. unfold score_net.
    cbn [num_hidden hidden_dim output_dim activation output_scale_fn mlp_with_depth].
    replace (n1 - 1) with 0 by lia. by replace (n2 - 1) with 0 by lia. }
  unfold mlp_apply, mlp_fns, without_apply_rng, transform. cbn [fst snd].
  by rewrite E.
Qed.

(** X6. Data that is not of rank three makes both models raise at the
    unpacking of its shape: the scalar model after its first line of
    output, the structured model before printing anything. *)
Theorem wrong_rank_raises a p i w :
  length (shape (in_data i)) <> 3 ->
  scalar_apply a p i w =
    (w ++ [ModelCalled (shape (in_data i)) (shape (in_data_id i))
             (shape (in_condition_mask i))],
     Raise (UnpackError (shape (in_data i)))) /\
  structured_apply a p i w = (w, Raise (UnpackError (shape (in_data i)))).
Proof.
  intros H. unfold scalar_apply, structured_apply, scalar_fns, structured_model_fns.
  simpl. unfold scalar_model, structured_model, scalar_tokens, structured_tokens.
  destruct (token_dims a) as [td cd].
  rewrite !bind_run. simpl. unfold lift. rewrite !bind_run.
  by rewrite (unpack3_raise _ H).
Qed.

(** X7. Identifiers whose number is not a multiple of the number of
    nodes of the data make both models raise at the reshape of
    [data_id], after one line of output. *)
Theorem miscounted_ids_raise a p i w B N C :
  shape (in_data i) = [B; N; C] ->
  size_of (shape (in_data_id i)) mod N <> 0 ->
  scalar_apply a p i w =
    (w ++ [ModelCalled (shape (in_data i)) (shape (in_data_id i))
             (shape (in_condition_mask i))],
     Raise (ReshapeError (shape (in_data_id i)) [N])) /\
  structured_apply a p i w =
    (w ++ [InitialShapes (shape (in_data i)) (shape (in_data_id i))
             (shape (in_condition_mask i))
             (shape <$> kwarg_default None (in_meta_data i))],
     Raise (ReshapeError (shape (in_data_id i)) [N])).
Proof.
  intros Hd HN. unfold scalar_apply, structured_apply, scalar_fns, structured_model_fns.
  simpl. unfold scalar_model, structured_model, scalar_tokens, structured_tokens.
  destruct (token_dims a) as [td cd].
  rewrite !bind_run. simpl. unfold lift. rewrite !bind_run. rewrite Hd. simpl.
  rewrite !bind_run. by rewrite (reshape_infer_miscounted _ _ HN).
Qed.

(** X8. A condition mask whose number of entries is not a multiple of
    the number of nodes makes both models raise at its reshape, in every
    [condition_mode], also in [none] where the mask is not used. *)
Theorem miscounted_mask_raises a p i w B N C :
  shape (in_data i) = [B; N; C] -> N <> 0 ->
  size_of (shape (in_data_id i)) mod N = 0 ->
  size_of (shape (in_condition_mask i)) mod N <> 0 ->
  scalar_apply a p i w =
    (w ++ [ModelCalled (shape (in_data i)) (shape (in_data_id i))
             (shape (in_condition_mask i))],
     Raise (ReshapeError (shape (in_condition_mask i)) [N])) /\
  structured_apply a p i w =
    (w ++ [InitialShapes (shape (in_data i)) (shape (in_data_id i))
             (shape (in_condition_mask i))
             (shape <$> kwarg_default None (in_meta_data i))],
     Raise (ReshapeError (shape (in_condition_mask i)) [N])).
Proof.
  intros Hd HN Hi Hm.
  unfold scalar_apply, structured_apply, scalar_fns, structured_model_fns.
  simpl. unfold scalar_model, structured_model, scalar_tokens, structured_tokens.
  destruct (token_dims a) as [td cd].
  rewrite !bind_run. simpl. unfold lift. rewrite !bind_run. rewrite Hd. simpl.
  rewrite !bind_run. rewrite (reshape_infer_counted _ _ HN Hi). simpl.
  rewrite !bind_run. by rewrite (reshape_infer_miscounted _ _ Hm).
Qed.

(** X9. In a [condition_mode] other than [none], parameters without a
    condition token make the conditioning raise, and [apply] of either
    model with it. *)
Theorem missing_condition_token_raises a p i w :
  condition_mode a <> "none" -> condition_token_of p = None ->
  (forall n mask tokens st, cond_token st = None ->
     conditioning a n mask tokens ApplyMode st =
     (st, Raise (MissingParameter top_level "condition_token"))) /\
  (exists e, snd (scalar_apply a p i w) = Raise e) /\
  (exists e, snd (structured_apply a p i w) = Raise e).
Proof.
  intros Hmode Hp. split.
  - intros n mask tokens st. by apply conditioning_without_token.
  - by apply apply_without_token.
Qed.

(** X10. What [init] leaves at the top level of the parameters: nothing
    in mode [none], and in any other mode the condition token, of shape
    [[1; 1; condition_token_dim]] as the model asks it. *)
Theorem init_creates_the_condition_token a key i w w' p :
  initializer_shapes ->
  fst (scalar_fns a) key i w = (w', Ok p) \/
  fst (structured_model_fns a) key i w = (w', Ok p) ->
  initialised_token a p.
Proof.
  intros Hinit Hrun. unfold initialised_token. case_decide as Hm.
  { exact (init_none_no_top a key i w w' p Hm Hrun). }
  destruct Hrun as [H|H]; apply init_run in H as (st & v & Hrun & <- & _).
  - pose proof (scalar_model_has_token (InitMode key) a i Hinit Hm
                  (HkState ∅ ∅ w) I) as Hk.
    by rewrite Hrun in Hk.
  - pose proof (structured_model_has_token (InitMode key) a i Hinit Hm
                  (HkState ∅ ∅ w) I) as Hk.
    by rewrite Hrun in Hk.
Qed.

(** X11. Parameters initialised in mode [none] cannot be used in another
    mode: [apply] of either model raises on them, whatever the input. *)
Theorem unconditioned_parameters_do_not_apply a b key i j w w' v p :
  condition_mode a = "none" -> condition_mode b <> "none" ->
  fst (scalar_fns a) key i w = (w', Ok p) \/
  fst (structured_model_fns a) key i w = (w', Ok p) ->
  (exists e, snd (scalar_apply b p j v) = Raise e) /\
  (exists e, snd (structured_apply b p j v) = Raise e).
Proof.
  intros Ha Hb Hrun. apply apply_without_token; [exact Hb|].
  unfold condition_token_of. by rewrite (init_none_no_top a key i w w' p Ha Hrun).
Qed.

End ModelProperties.

Section TokenizerProperties.
Context {SC : Scalar} {EX : Externals} {CT : Contracts EX}.

(** X12. With a tokenizer that gives each identifier a token of the
    width it was built with, and a width that is not zero, the handler of
    the [try] statement never runs: neither [init] nor [apply] prints its
    diagnostic, whatever the input and whether they return or raise. *)
Theorem conforming_tokenizer_never_prints_reshape_error a i w key p :
  fst (token_dims a) <> 0 ->
  no_reshape_error w ->
  no_reshape_error (fst (fst (scalar_fns a) key i w)) /\
  no_reshape_error (fst (scalar_apply a p i w)).
Proof.
  intros Htd Hw. split.
  - destruct (clean_run_scalar_model (InitMode key) a i Htd (HkState ∅ ∅ w) Hw)
      as [H _].
    unfold scalar_fns, without_apply_rng, transform. cbn [fst snd].
    by destruct (scalar_model a i (InitMode key) _) as [? []].
  - destruct (clean_run_scalar_model ApplyMode a i Htd (HkState p ∅ w) Hw)
      as [H _].
    unfold scalar_apply, scalar_fns, without_apply_rng, transform. cbn [fst snd].
    by destruct (scalar_model a i ApplyMode _).
Qed.

(** X13. A [condition_mode] that is none of [concat], [add] and [none]
    is accepted: the conditioning returns its tokens unchanged, and the
    tokens enter the transformer at width [token_dim], without the
    [condition_token_dim] of the three other modes. *)
Theorem unrecognised_mode_drops_the_condition a :
  unrecognised_mode a ->
  (forall n mask tokens mode st st' out,
     conditioning a n mask tokens mode st = (st', Ok out) -> out = tokens) /\
  (forall i B N st st' tokens time,
     shape (in_data i) = [B; N; 1] -> shape (in_data_id i) = [B; N] ->
     shape (in_condition_mask i) = [B; N] ->
     scalar_tokens a i ApplyMode st = (st', Ok (tokens, time)) \/
     structured_tokens a i ApplyMode st = (st', Ok (tokens, time)) ->
     shape tokens = [B; N; token_dim a]).
Proof.
  intros Hu. split.
  - intros n mask tokens mode st st' out Hrun. destruct Hu as (Hc & Ha & _).
    exact (conditioning_unrecognised a n mask tokens mode Hc Ha _ _ _ Hrun).
  - intros i B N st st' tokens time Hd Hi Hm Hrun.
    destruct (unrecognised_entering_width a Hu) as [<- _].
    destruct Hrun as [Hrun|Hrun].
    + exact (scalar_tokens_shape a i B N Hd Hi Hm _ _ _ Hrun).
    + exact (structured_tokens_shape a i B N Hd Hi Hm _ _ _ Hrun).
Qed.

End TokenizerProperties.

(** ** The small instance *)

Lemma run_returned {S A} (x : S * result A) (v : A) :
  snd x = Ok v -> x = (fst x, Ok v).
Proof. destruct x as [s r]. simpl. by intros ->. Qed.

Lemma run_returns {S A} (x : S * result A) (d : A) :
  returns (snd x) = true -> x = (fst x, Ok (returned d (snd x))).
Proof. by destruct x as [s [a|e]]. Qed.

Lemma toy_init_returns mode :
  returns (snd (toy_init mode)) = true ->
  fst (scalar_fns (EX := toy) (toy_args mode)) 0 (toy_input toy_mask) [] =
  (fst (toy_init mode), Ok (toy_init_params mode)).
Proof. apply run_returns. Qed.

Lemma toy_initializer_shapes : initializer_shapes (EX := toy).
Proof. by intros stddev mean key shp. Qed.

Lemma toy_mlp_contracts : mlp_contracts (EX := toy).
Proof.
  split.
  - intros dim p t e. simpl. unfold toy_fourier. by intros [= <-].
  - by intros x.
Qed.

Lemma init_parameters_apply_witness :
  fst (scalar_fns (EX := toy) (toy_args "concat")) 0 (toy_input toy_mask) [] =
    (fst (toy_init "concat"), Ok (toy_init_params "concat")) /\
  exists v,
    scalar_apply (EX := toy) (toy_args "concat") (toy_init_params "concat")
      (toy_input toy_mask) [] = (fst (toy_init "concat"), Ok v).
Proof.
  assert (fst (scalar_fns (EX := toy) (toy_args "concat")) 0 (toy_input toy_mask) [] =
          (fst (toy_init "concat"), Ok (toy_init_params "concat"))) as H
    by (apply toy_init_returns; vm_compute; reflexivity).
  split; [exact H|].
  exact (proj1 (init_parameters_apply (EX := toy) (toy_args "concat") 0
                  (toy_input toy_mask) [] (fst (toy_init "concat"))
                  (toy_init_params "concat") (toy_init_params "concat")
                  toy_initializer_shapes (params_within_refl _)) H).
Defined.

Lemma mlp_init_parameters_apply_witness :
  fst (mlp_fns (EX := toy) toy_mlp) 0 toy_mlp_input [] =
    (fst toy_mlp_init, Ok toy_mlp_init_params) /\
  exists v, mlp_apply (EX := toy) toy_mlp toy_mlp_init_params toy_mlp_input [] =
            (fst toy_mlp_init, Ok v).
Proof.
  assert (fst (mlp_fns (EX := toy) toy_mlp) 0 toy_mlp_input [] =
          (fst toy_mlp_init, Ok toy_mlp_init_params)) as H
    by (apply (run_returns toy_mlp_init); vm_compute; reflexivity).
  split; [exact H|].
  exact (mlp_init_parameters_apply (EX := toy) toy_mlp 0 toy_mlp_input []
           (fst toy_mlp_init) toy_mlp_init_params toy_mlp_init_params
           (params_within_refl _) H).
Defined.

Lemma mlp_score_shape_witness :
  exists w' out,
    mlp_apply (EX := toy) toy_mlp toy_mlp_params toy_mlp_input [] = (w', Ok out) /\
    shape out = [1; 1].
Proof.
  eexists _, _. split; [vm_compute; reflexivity|].
  eapply (mlp_score_shape (EX := toy) toy_mlp toy_mlp_params
            (fst (fst toy_mlp_input)) (snd (fst toy_mlp_input)) (snd toy_mlp_input)
            [] _ _ 1 2 1 toy_mlp_contracts).
  - by intros x.
  - by intros t x.
  - reflexivity.
  - reflexivity.
  - reflexivity.
  - vm_compute. reflexivity.
Defined.

Lemma shallow_mlp_ignores_layer_norm_witness :
  fst (mlp_fns (EX := toy) (mlp_with_depth 0 true toy_mlp)) 0 toy_mlp_input [] =
  fst (mlp_fns (EX := toy) (mlp_with_depth 1 false toy_mlp)) 0 toy_mlp_input [] /\
  mlp_apply (EX := toy) (mlp_with_depth 0 true toy_mlp) toy_mlp_params toy_mlp_input [] =
  mlp_apply (EX := toy) (mlp_with_depth 1 false toy_mlp) toy_mlp_params toy_mlp_input [].
Proof.
  apply (shallow_mlp_ignores_layer_norm (EX := toy) toy_mlp 0 1 true false 0
           toy_mlp_params toy_mlp_input []); lia.
Defined.

Lemma wrong_rank_raises_witness :
  scalar_apply (EX := toy) (toy_args "add") ∅
    (toy_input_of toy_flat_data toy_ids toy_mask) [] =
    ([ModelCalled [1; 2] [1; 2] [1; 2]], Raise (UnpackError [1; 2])) /\
  structured_apply (EX := toy) (toy_args "add") ∅
    (toy_input_of toy_flat_data toy_ids toy_mask) [] =
    ([], Raise (UnpackError [1; 2])).
Proof.
  apply (wrong_rank_raises (EX := toy) (toy_args "add") ∅
           (toy_input_of toy_flat_data toy_ids toy_mask) []).
  simpl. lia.
Defined.

Lemma miscounted_ids_raise_witness :
  scalar_apply (EX := toy) (toy_args "add") ∅
    (toy_input_of toy_data toy_three_ids toy_mask) [] =
    ([ModelCalled [1; 2; 1] [1; 3] [1; 2]], Raise (ReshapeError [1; 3] [2])) /\
  structured_apply (EX := toy) (toy_args "add") ∅
    (toy_input_of toy_data toy_three_ids toy_mask) [] =
    ([InitialShapes [1; 2; 1] [1; 3] [1; 2] None], Raise (ReshapeError [1; 3] [2])).
Proof.
  apply (miscounted_ids_raise (EX := toy) (toy_args "add") ∅
           (toy_input_of toy_data toy_three_ids toy_mask) [] 1 2 1).
  - reflexivity.
  - vm_compute. lia.
Defined.

Lemma miscounted_mask_raises_witness :
  scalar_apply (EX := toy) (toy_args "none") ∅
    (toy_input_of toy_data toy_ids toy_three_mask) [] =
    ([ModelCalled [1; 2; 1] [1; 2] [1; 3]], Raise (ReshapeError [1; 3] [2])) /\
  structured_apply (EX := toy) (toy_args "none") ∅
    (toy_input_of toy_data toy_ids toy_three_mask) [] =
    ([InitialShapes [1; 2; 1] [1; 2] [1; 3] None], Raise (ReshapeError [1; 3] [2])).
Proof.
  apply (miscounted_mask_raises (EX := toy) (toy_args "none") ∅
           (toy_input_of toy_data toy_ids toy_three_mask) [] 1 2 1).
  - reflexivity.
  - lia.
  - reflexivity.
  - vm_compute. lia.
Defined.

Lemma missing_condition_token_raises_witness :
  (exists e, snd (scalar_apply (EX := toy) (toy_args "add") ∅
                    (toy_input toy_mask) []) = Raise e) /\
  (exists e, snd (structured_apply (EX := toy) (toy_args "add") ∅
                    (toy_input toy_mask) []) = Raise e).
Proof.
  apply (proj2 (missing_condition_token_raises (EX := toy) (toy_args "add") ∅
                  (toy_input toy_mask) [] ltac:(simpl; discriminate) eq_refl)).
Defined.

Lemma init_creates_the_condition_token_witness :
  fst (scalar_fns (EX := toy) (toy_args "add")) 0 (toy_input toy_mask) [] =
    (fst (toy_init "add"), Ok (toy_init_params "add")) /\
  initialised_token (toy_args "add") (toy_init_params "add").
Proof.
  assert (fst (scalar_fns (EX := toy) (toy_args "add")) 0 (toy_input toy_mask) [] =
          (fst (toy_init "add"), Ok (toy_init_params "add"))) as H
    by (apply toy_init_returns; vm_compute; reflexivity).
  split; [exact H|].
  exact (init_creates_the_condition_token (EX := toy) (toy_args "add") 0
           (toy_input toy_mask) [] (fst (toy_init "add")) (toy_init_params "add")
           toy_initializer_shapes (or_introl H)).
Defined.

Lemma unconditioned_parameters_do_not_apply_witness :
  fst (scalar_fns (EX := toy) (toy_args "none")) 0 (toy_input toy_mask) [] =
    (fst (toy_init "none"), Ok (toy_init_params "none")) /\
  (exists e, snd (scalar_apply (EX := toy) (toy_args "add") (toy_init_params "none")
                    (toy_input toy_zero_mask) []) = Raise e) /\
  (exists e, snd (structured_apply (EX := toy) (toy_args "add") (toy_init_params "none")
                    (toy_input toy_zero_mask) []) = Raise e).
Proof.
  assert (fst (scalar_fns (EX := toy) (toy_args "none")) 0 (toy_input toy_mask) [] =
          (fst (toy_init "none"), Ok (toy_init_params "none"))) as H
    by (apply toy_init_returns; vm_compute; reflexivity).
  split; [exact H|].
  exact (unconditioned_parameters_do_not_apply (EX := toy) (toy_args "none")
           (toy_args "add") 0 (toy_input toy_mask) (toy_input toy_zero_mask) []
           (fst (toy_init "none")) [] (toy_init_params "none") eq_refl
           ltac:(simpl; discriminate) (or_introl H)).
Defined.

Lemma conforming_tokenizer_never_prints_reshape_error_witness :
  no_reshape_error
    (fst (fst (scalar_fns (EX := toy) (toy_args "concat")) 0 (toy_input toy_mask) [])) /\
  no_reshape_error
    (fst (scalar_apply (EX := toy) (toy_args "concat")
            (toy_params (counting [1; 1; 1]) 3) (toy_input toy_mask) [])).
Proof.
  apply (conforming_tokenizer_never_prints_reshape_error (EX := toy)
           (CT := toy_contracts) (toy_args "concat") (toy_input toy_mask) [] 0
           (toy_params (counting [1; 1; 1]) 3)).
  - vm_compute. lia.
  - constructor.
Defined.

Lemma unrecognised_mode_drops_the_condition_witness :
  unrecognised_mode (toy_args "film") /\
  scalar_tokens (EX := toy) (toy_args "film") (toy_input toy_mask) ApplyMode
    (HkState (toy_params (counting [1; 1; 1]) 2) ∅ []) =
    (fst toy_film_run, Ok (toy_film_tokens, toy_film_time)) /\
  shape toy_film_tokens = [1; 2; token_dim (toy_args "film")].
Proof.
  assert (unrecognised_mode (toy_args "film")) as Hu
    by (repeat split; simpl; discriminate).
  assert (scalar_tokens (EX := toy) (toy_args "film") (toy_input toy_mask) ApplyMode
            (HkState (toy_params (counting [1; 1; 1]) 2) ∅ []) =
          (fst toy_film_run, Ok (toy_film_tokens, toy_film_time))) as H
    by (apply (run_returned toy_film_run); vm_compute; reflexivity).
  split; [exact Hu|]. split; [exact H|].
  exact (proj2 (unrecognised_mode_drops_the_condition (EX := toy)
                  (CT := toy_contracts) (toy_args "film") Hu)
           (toy_input toy_mask) 1 2 _ _ _ _ eq_refl eq_refl eq_refl (or_introl H)).
Defined.
